(** * PearlDiver: the bit-sliced proof-of-work search engine

    A shallow embedding of [PearlDiver] (pearlDiver.ts): the bit-slice
    encoder [searchToPair]/[searchOffset], the buffer layout
    [webGLWriteBuffers]/[saveSearch], and the queue and state machine
    ([search], [searchDoNext], [webGLFindNonce], [webGLSearch],
    [interrupt], [resume], [remove], [setOffset]); and of the kernel
    [twist] (shaders/transform).

    JavaScript numbers that the program uses as integers are [Z]; an
    [Int32Array] is a [list Z] of fixed length whose stores wrap to 32 bits
    and are dropped out of range; array positions are [nat]. *)

From Stdlib Require Import ZArith Lia.
From stdpp Require Import base numbers list strings.

Open Scope Z_scope.

(** ** Constants *)

(** Structural constants of the Curl sponge ([Curl.HASH_LENGTH],
    [Curl.STATE_LENGTH], [Curl.NUMBER_OF_ROUNDS] of @iota-pico/crypto). *)
Module Curl.
Definition HASH_LENGTH : nat := 243.
Definition STATE_LENGTH : nat := 729.
Definition NUMBER_OF_ROUNDS : nat := 81.
End Curl.

Definition TEXEL_SIZE : nat := 4.
Definition NONCE_LENGTH : nat := Eval cbv in (Curl.HASH_LENGTH / 3)%nat.
Definition NONCE_START : nat := Eval cbv in (Curl.HASH_LENGTH - NONCE_LENGTH)%nat.

Definition LOW_BITS : Z := 0.
Definition HIGH_BITS : Z := -1.
Definition LOW_0 : Z := 0xDB6DB6DB.
Definition LOW_1 : Z := 0xF1F8FC7E.
Definition LOW_2 : Z := 0x7FFFE00F.
Definition LOW_3 : Z := 0xFFC00000.
Definition HIGH_0 : Z := 0xB6DB6DB6.
Definition HIGH_1 : Z := 0x8FC7E3F1.
Definition HIGH_2 : Z := 0xFFC01FFF.
Definition HIGH_3 : Z := 0x003FFFFF.

(** ** Int32Array *)

(** The value an [Int32Array] keeps of a stored number: the low 32 bits,
    read as a signed integer. *)
Definition toInt32 (z : Z) : Z := (z + 2 ^ 31) mod 2 ^ 32 - 2 ^ 31.

(** [new Int32Array(n)]: n zeros. *)
Definition new_Int32Array (n : nat) : list Z := replicate n 0.

(** [a[i] = v] on an [Int32Array]: wraps [v], and does nothing when [i] is
    not an index of [a] (a typed array never grows). *)
Definition store (a : list Z) (i : nat) (v : Z) : list Z := <[i := toInt32 v]> a.

(** [a[i]] read from a job's array and stored into an [Int32Array]: a
    missing element is [undefined], which the store turns into 0. *)
Definition load (a : list Z) (i : nat) : Z := default 0 (a !! i).

(** Bit [b] of a 32-bit word: the lane [b] of a bit-sliced cell. *)
Definition lane_bit (w : Z) (b : nat) : bool := Z.testbit w (Z.of_nat b).

(** ** The bit-slice encoder *)

Record PearlDiverSearchStates : Type := mkStates {
  low : list Z;
  high : list Z
}.

(** [Array.prototype.forEach] with its [(value, index)] callback, threading
    the state the callback mutates. *)
Fixpoint forEach_from {A St : Type} (f : A -> nat -> St -> St)
    (index : nat) (l : list A) (s : St) : St :=
  match l with
  | [] => s
  | x :: l' => forEach_from f (S index) l' (f x index s)
  end.

Definition forEach {A St : Type} (f : A -> nat -> St -> St) (l : list A) (s : St) : St :=
  forEach_from f 0 l s.

(** The body of the [switch (trit)] in [searchToPair]. *)
Definition encode_trit (trit : Z) (index : nat)
    (states : PearlDiverSearchStates) : PearlDiverSearchStates :=
  if trit =? 0 then
    {| low := store (low states) index HIGH_BITS;
       high := store (high states) index HIGH_BITS |}
  else if trit =? 1 then
    {| low := store (low states) index LOW_BITS;
       high := store (high states) index HIGH_BITS |}
  else
    {| low := store (low states) index HIGH_BITS;
       high := store (high states) index LOW_BITS |}.

Definition searchOffset (states : PearlDiverSearchStates) (offset : nat)
    : PearlDiverSearchStates :=
  let l0 := store (low states) (offset + 0) LOW_0 in
  let l1 := store l0 (offset + 1) LOW_1 in
  let l2 := store l1 (offset + 2) LOW_2 in
  let l3 := store l2 (offset + 3) LOW_3 in
  let h0 := store (high states) (offset + 0) HIGH_0 in
  let h1 := store h0 (offset + 1) HIGH_1 in
  let h2 := store h1 (offset + 2) HIGH_2 in
  let h3 := store h2 (offset + 3) HIGH_3 in
  {| low := l3; high := h3 |}.

Definition searchToPair (state : list Z) : PearlDiverSearchStates :=
  let states := {| low := new_Int32Array Curl.STATE_LENGTH;
                   high := new_Int32Array Curl.STATE_LENGTH |} in
  searchOffset (forEach encode_trit state states) NONCE_START.

(** A trit is one of -1, 0, +1; a valid trit vector has the state length. *)
Definition is_trit (t : Z) : Prop := t = -1 \/ t = 0 \/ t = 1.

Definition valid_trits (t : list Z) : Prop :=
  length t = Curl.STATE_LENGTH /\ Forall is_trit t.

(** Modelled from the spec: the decoder of one lane, which in the program is
    part of the [finalize] kernel (shaders/finalize, not among the sources).
    Section 3 of the specification gives the rule: (low=1,high=1) is 0,
    (low=0,high=1) is +1, (low=1,high=0) is -1 and (0,0) is invalid. *)
Definition decode_cell (b : nat) (l h : Z) : option Z :=
  match lane_bit l b, lane_bit h b with
  | true, true => Some 0
  | false, true => Some 1
  | true, false => Some (-1)
  | false, false => None
  end.

(** Modelled from the spec: [decode] of section 4.1 for lane [b], cell by
    cell over the two halves; [None] as soon as one cell is invalid. *)
Fixpoint decode_cells (b : nat) (ls hs : list Z) : option (list Z) :=
  match ls, hs with
  | l :: ls', h :: hs' =>
      match decode_cell b l h, decode_cells b ls' hs' with
      | Some t, Some ts => Some (t :: ts)
      | _, _ => None
      end
  | _, _ => Some []
  end.

Definition decode (b : nat) (states : PearlDiverSearchStates) : option (list Z) :=
  decode_cells b (low states) (high states).

(** The four cells that [searchOffset] overwrites in [searchToPair]. *)
Definition seed_cell (i : nat) : Prop := (NONCE_START <= i < NONCE_START + 4)%nat.

(** The pair of bits that cell [i] of an encoded state holds in lane [b]. *)
Definition cell_bits (states : PearlDiverSearchStates) (i b : nat)
    : option (bool * bool) :=
  match low states !! i, high states !! i with
  | Some l, Some h => Some (lane_bit l b, lane_bit h b)
  | _, _ => None
  end.

(** The bit-slice rule in the words of the specification (section 3), as
    (low, high): 0 is (1,1), +1 is (0,1), -1 is (1,0). To be compared with
    what [searchToPair] stores. *)
Definition rule_bits (t : Z) : option (bool * bool) :=
  if t =? 0 then Some (true, true)
  else if t =? 1 then Some (false, true)
  else if t =? -1 then Some (true, false)
  else None.

(** The trits that lane [b] carries in the four seed cells. *)
Definition lane_seed (states : PearlDiverSearchStates) (b : nat)
    : list (option (bool * bool)) :=
  (fun k => cell_bits states (NONCE_START + k) b) <$> [0; 1; 2; 3]%nat.

(** What the switch of [searchToPair] stores on each half, as a function of
    the trit. *)
Definition enc_low (trit : Z) : Z :=
  if trit =? 0 then HIGH_BITS else if trit =? 1 then LOW_BITS else HIGH_BITS.
Definition enc_high (trit : Z) : Z :=
  if trit =? 0 then HIGH_BITS else if trit =? 1 then HIGH_BITS else LOW_BITS.

(** The seed words of the two halves, in the order [searchOffset] stores
    them, and the bits lane [b] has in them once stored. *)
Definition seed_words : list (Z * Z) :=
  [(LOW_0, HIGH_0); (LOW_1, HIGH_1); (LOW_2, HIGH_2); (LOW_3, HIGH_3)].

Definition seed_bits (b : nat) : list (option (bool * bool)) :=
  (fun w => Some (lane_bit (toInt32 w.1) b, lane_bit (toInt32 w.2) b)) <$> seed_words.

(** ** The compute backend *)

(** The calls [PearlDiver] makes on its [WebGLWorker], in the order made.
    The worker itself (webGL/webGLWorker.ts) is not among the sources: the
    engine keeps the history of its calls, and what the worker answers is
    left to the interface [WebGLWorker] below. *)
Inductive WorkerCall : Type :=
| initialize (stateLength texelSize : nat)
| addProgram (name : string) (uniforms : list string)
| writeData (data : list Z)
| runProgram (name : string) (count : nat) (uniform : option (string * Z))
| readData (x y n m : nat).

(** What the engine observes of the worker. [readData_result h] is the array
    that the [readData] call ending the history [h] returns;
    [ipt_data_after h d] is what the worker's own input array
    ([getIpt().data], which the engine keeps as [_currentBuffer]) holds
    after the last call of [h], when it held [d] before;
    [getDimensions_x] is [getDimensions().x]. *)
Class WebGLWorker : Type := {
  readData_result : list WorkerCall -> list Z;
  ipt_data_after : list WorkerCall -> list Z -> list Z;
  getDimensions_x : nat
}.

(** ** Jobs and the engine *)

Inductive PearlDiverState : Type := ready | searching | interrupted.

Global Instance PearlDiverState_eq_dec : EqDecision PearlDiverState.
Proof. solve_decision. Defined.

(** The argument of a job's callback, [Trits.fromValue(nonce).toTrytes()]:
    the text codec is external, so the text stands for the trits it was
    made from. An element is [None] where the texel read back had no
    fourth channel ([undefined]). *)
Inductive Trytes : Type := Trits_fromValue_toTrytes (nonce : list (option Z)).

(** A job. [callback] names the [resolve] function of the promise that
    [search] returned for it. *)
Record PearlDiverSearchObject : Type := mkSearchObject {
  states : PearlDiverSearchStates;
  minWeightMagnitude : Z;
  callback : nat
}.

(** The engine. Besides the fields of the class it carries the two things
    the class hands to its environment: [timers], the jobs of the pending
    [setTimeout(() => this.webGLSearch(searchObject), 1)] in the order set,
    and [resolved], the callbacks invoked so far with their argument. A job
    is referenced either from [_queue] or from one timer, never both, so
    jobs are kept by value. *)
Record PearlDiver : Type := mkPearlDiver {
  _webGLWorker : list WorkerCall;
  _queue : list PearlDiverSearchObject;
  _currentBuffer : list Z;
  _offset : Z;
  _state : PearlDiverState;
  timers : list PearlDiverSearchObject;
  resolved : list (nat * Trytes)
}.

Definition set_queue (q : list PearlDiverSearchObject) (e : PearlDiver) : PearlDiver :=
  {| _webGLWorker := _webGLWorker e; _queue := q;
     _currentBuffer := _currentBuffer e; _offset := _offset e;
     _state := _state e; timers := timers e; resolved := resolved e |}.

Definition set_currentBuffer (b : list Z) (e : PearlDiver) : PearlDiver :=
  {| _webGLWorker := _webGLWorker e; _queue := _queue e;
     _currentBuffer := b; _offset := _offset e;
     _state := _state e; timers := timers e; resolved := resolved e |}.

Definition set_state (s : PearlDiverState) (e : PearlDiver) : PearlDiver :=
  {| _webGLWorker := _webGLWorker e; _queue := _queue e;
     _currentBuffer := _currentBuffer e; _offset := _offset e;
     _state := s; timers := timers e; resolved := resolved e |}.

(** [setTimeout(() => this.webGLSearch(searchObject), 1)]. *)
Definition setTimeout (searchObject : PearlDiverSearchObject) (e : PearlDiver)
    : PearlDiver :=
  {| _webGLWorker := _webGLWorker e; _queue := _queue e;
     _currentBuffer := _currentBuffer e; _offset := _offset e;
     _state := _state e; timers := timers e ++ [searchObject];
     resolved := resolved e |}.

(** [searchObject.callback(result)]. *)
Definition invoke_callback (searchObject : PearlDiverSearchObject) (result : Trytes)
    (e : PearlDiver) : PearlDiver :=
  {| _webGLWorker := _webGLWorker e; _queue := _queue e;
     _currentBuffer := _currentBuffer e; _offset := _offset e;
     _state := _state e; timers := timers e;
     resolved := resolved e ++ [(callback searchObject, result)] |}.

(** One call on the worker: it joins the history, and the worker may have
    written its input array, which is the engine's [_currentBuffer]. *)
Definition worker_call `{!WebGLWorker} (c : WorkerCall) (e : PearlDiver) : PearlDiver :=
  {| _webGLWorker := _webGLWorker e ++ [c]; _queue := _queue e;
     _currentBuffer := ipt_data_after (_webGLWorker e ++ [c]) (_currentBuffer e);
     _offset := _offset e;
     _state := _state e; timers := timers e; resolved := resolved e |}.

(** How a method ends: normally, or by the [TypeError] of reading a property
    of [undefined]. *)
Inductive Completion : Type := Normal | TypeError.

(** The promise [search] returns, as it stands when [search] returns. *)
Inductive Rejection : Type :=
| CoreError (message : string) (minWeight : Z)
| Thrown (c : Completion).

Inductive Promise : Type := Pending | Rejected (r : Rejection).

(** The constructor: the worker is initialised and the six programs are
    added; [ipt_data] is the input array the worker allocated. *)
Definition new_PearlDiver (ipt_data : list Z) : PearlDiver :=
  {| _webGLWorker :=
       [ initialize (Curl.STATE_LENGTH + 1) TEXEL_SIZE;
         addProgram "init" ["gr_offset"];
         addProgram "increment" [];
         addProgram "twist" [];
         addProgram "check" ["minWeightMagnitude"];
         addProgram "col_check" [];
         addProgram "finalize" [] ];
     _queue := [];
     _currentBuffer := ipt_data;
     _offset := 0;
     _state := ready;
     timers := [];
     resolved := [] |}.

Definition setOffset (offset : Z) (e : PearlDiver) : PearlDiver :=
  {| _webGLWorker := _webGLWorker e; _queue := _queue e;
     _currentBuffer := _currentBuffer e; _offset := offset;
     _state := _state e; timers := timers e; resolved := resolved e |}.

Definition interrupt (e : PearlDiver) : PearlDiver :=
  if decide (_state e = searching) then set_state interrupted e else e.

(** [this._queue.pop()]: drops the last job. *)
Definition remove (e : PearlDiver) : PearlDiver :=
  set_queue (take (length (_queue e) - 1) (_queue e)) e.

(** ** Buffer layout *)

(** One turn of the loop of [webGLWriteBuffers]. *)
Definition write_texel (states : PearlDiverSearchStates) (buffer : list Z) (i : nat)
    : list Z :=
  let b0 := store buffer (i * TEXEL_SIZE) (load (low states) i) in
  let b1 := store b0 (i * TEXEL_SIZE + 1) (load (high states) i) in
  let b2 := store b1 (i * TEXEL_SIZE + 2) (load (low states) i) in
  store b2 (i * TEXEL_SIZE + 3) (load (high states) i).

Definition webGLWriteBuffers (states : PearlDiverSearchStates) (buffer : list Z)
    : list Z :=
  foldl (write_texel states) buffer (seq 0 Curl.STATE_LENGTH).

(** [Array.prototype.reduce] with its [(accumulator, value, index)]
    callback. *)
Fixpoint reduce_from {A B : Type} (f : B -> A -> nat -> B)
    (index : nat) (l : list A) (acc : B) : B :=
  match l with
  | [] => acc
  | x :: l' => reduce_from f (S index) l' (f acc x index)
  end.

Definition reduce {A B : Type} (f : B -> A -> nat -> B) (l : list A) (init : B) : B :=
  reduce_from f 0 l init.

(** [pack(l)]: a new chunk at every index that is a multiple of [l], the
    value pushed on the last chunk otherwise. The reducers start at index
    0, so there is a last chunk whenever a value is pushed on it. *)
Definition pack (l : nat) (r : list (list Z)) (currentValue : Z) (currentIndex : nat)
    : list (list Z) :=
  if (currentIndex mod l =? 0)%nat then r ++ [[currentValue]]
  else alter (fun chunk => chunk ++ [currentValue]) (length r - 1)%nat r.

(** The second reducer of [saveSearch]: channel [i] of the texel is pushed
    on column [i]. A texel that lacks the channel (the buffer ends inside
    it) gives [undefined]; it is kept as 0, which is what
    [webGLWriteBuffers], the only reader of a job's arrays, stores for
    [undefined]. *)
Definition push_channels (a : list (list Z)) (v : list Z) (index : nat)
    : list (list Z) :=
  imap (fun i c => c ++ [load v i]) a.

(** A JavaScript [Map] from strings, in insertion order. *)
Definition Map_set (k : string) (v : list Z) (m : list (string * list Z))
    : list (string * list Z) :=
  if bool_decide (k ∈ m.*1)
  then (fun kv => if String.eqb kv.1 k then (k, v) else kv) <$> m
  else m ++ [(k, v)].

(** The third reducer of [saveSearch]. *)
Definition name_columns (a : list (string * list Z)) (v : list Z) (i : nat)
    : list (string * list Z) :=
  if (i mod 2 =? 0)%nat then Map_set "low" v a else Map_set "high" v a.

(** The [forEach] of [saveSearch] on the map: the assignment to the job's
    states. *)
Definition assign_column (states : PearlDiverSearchStates) (kv : string * list Z)
    : PearlDiverSearchStates :=
  if String.eqb kv.1 "low"
  then {| low := kv.2; high := high states |}
  else {| low := low states; high := kv.2 |}.

(** The states that [saveSearch] leaves in the job. *)
Definition snapshot (buffer : list Z) (states : PearlDiverSearchStates)
    : PearlDiverSearchStates :=
  let texels := take Curl.STATE_LENGTH (reduce (pack 4) buffer []) in
  let columns := reduce push_channels texels [[]; []] in
  let named := reduce name_columns columns [] in
  foldl assign_column states named.

Definition saveSearch (searchObject : PearlDiverSearchObject) (e : PearlDiver)
    : PearlDiver :=
  let searchObject' :=
    {| states := snapshot (_currentBuffer e) (states searchObject);
       minWeightMagnitude := minWeightMagnitude searchObject;
       callback := callback searchObject |} in
  set_queue (searchObject' :: _queue e) e.

(** ** The state machine *)

Section Orchestrator.

Context `{!WebGLWorker}.

(** [searchObject] is [None] for [undefined], on which
    [searchObject.states] throws before anything else is done. *)
Definition webGLFindNonce (searchObject : option PearlDiverSearchObject)
    (e : PearlDiver) : Completion * PearlDiver :=
  match searchObject with
  | None => (TypeError, e)
  | Some so =>
      let e1 := set_currentBuffer
                  (webGLWriteBuffers (states so) (_currentBuffer e)) e in
      let e2 := worker_call (writeData (_currentBuffer e1)) e1 in
      let e3 := worker_call
                  (runProgram "init" 1 (Some ("gr_offset", _offset e2))) e2 in
      (Normal, setTimeout so e3)
  end.

Definition searchDoNext (e : PearlDiver) : Completion * PearlDiver :=
  let next := head (_queue e) in
  let e1 := set_queue (tail (_queue e)) e in
  if decide (_state e1 <> searching) then
    webGLFindNonce next (set_state searching e1)
  else
    (Normal, set_state ready e1).

Definition resume (e : PearlDiver) : Completion * PearlDiver := searchDoNext e.

(** [search]; [resolve] names the resolve function of the promise made.
    The body of an [async] function and the executor of a promise run
    at once; an exception in the executor rejects the promise. *)
Definition search (states : PearlDiverSearchStates) (minWeight : Z)
    (resolve : nat) (e : PearlDiver) : Promise * PearlDiver :=
  if (minWeight >=? Z.of_nat Curl.HASH_LENGTH) || (minWeight <=? 0) then
    (Rejected (CoreError "Bad Min-Weight Magnitude" minWeight), e)
  else
    let e1 := set_queue
                (_queue e ++ [ {| states := states;
                                  minWeightMagnitude := minWeight;
                                  callback := resolve |} ]) e in
    if decide (_state e1 = ready) then
      match searchDoNext e1 with
      | (Normal, e2) => (Pending, e2)
      | (c, e2) => (Rejected (Thrown c), e2)
      end
    else (Pending, e1).

(** The four kernels of a round and the read of the sentinel texel. *)
Definition run_round (searchObject : PearlDiverSearchObject) (e : PearlDiver)
    : PearlDiver :=
  let e1 := worker_call (runProgram "increment" 1 None) e in
  let e2 := worker_call (runProgram "twist" Curl.NUMBER_OF_ROUNDS None) e1 in
  let e3 := worker_call
              (runProgram "check" 1
                 (Some ("minWeightMagnitude", minWeightMagnitude searchObject)))
              e2 in
  let e4 := worker_call (runProgram "col_check" 1 None) e3 in
  worker_call (readData Curl.STATE_LENGTH 0 1 1) e4.

(** [readData(Curl.STATE_LENGTH, 0, 1, 1)[2]] of the round just run. *)
Definition sentinel (searchObject : PearlDiverSearchObject) (e : PearlDiver)
    : option Z :=
  readData_result (_webGLWorker (run_round searchObject e)) !! 2%nat.

Definition webGLSearch (searchObject : PearlDiverSearchObject) (e : PearlDiver)
    : Completion * PearlDiver :=
  let e5 := run_round searchObject e in
  if decide (readData_result (_webGLWorker e5) !! 2%nat = Some (-1)) then
    if decide (_state e5 = interrupted) then
      (Normal, saveSearch searchObject e5)
    else
      (Normal, setTimeout searchObject e5)
  else
    let e6 := worker_call (runProgram "finalize" 1 None) e5 in
    let e7 := worker_call (readData 0 0 getDimensions_x 1) e6 in
    let nonce :=
      (fun x : list Z => x !! 3%nat)
        <$> take Curl.HASH_LENGTH
              (reduce (pack 4) (readData_result (_webGLWorker e7)) []) in
    let e8 := invoke_callback searchObject (Trits_fromValue_toTrytes nonce) e7 in
    searchDoNext e8.

(** The event loop fires the oldest pending timer. *)
Definition run_timer (e : PearlDiver) : Completion * PearlDiver :=
  match timers e with
  | [] => (Normal, e)
  | searchObject :: rest =>
      webGLSearch searchObject
        {| _webGLWorker := _webGLWorker e; _queue := _queue e;
           _currentBuffer := _currentBuffer e; _offset := _offset e;
           _state := _state e; timers := rest; resolved := resolved e |}
  end.

End Orchestrator.

(** The calls a method added to the worker's history. *)
Definition new_calls (before after : PearlDiver) : list WorkerCall :=
  drop (length (_webGLWorker before)) (_webGLWorker after).

(** The calls of one round, for the job [so]. *)
Definition round_calls (so : PearlDiverSearchObject) : list WorkerCall :=
  [ runProgram "increment" 1 None;
    runProgram "twist" Curl.NUMBER_OF_ROUNDS None;
    runProgram "check" 1 (Some ("minWeightMagnitude", minWeightMagnitude so));
    runProgram "col_check" 1 None;
    readData Curl.STATE_LENGTH 0 1 1 ].

(** A worker for examples: the sentinel texel always reads [word] in its
    third channel, and the input array is left alone. *)
Definition constant_worker (word : Z) : WebGLWorker :=
  {| readData_result := fun _ => [0; 0; word; 0];
     ipt_data_after := fun _ d => d;
     getDimensions_x := (Curl.STATE_LENGTH + 1)%nat |}.

(** A job of two cells and a fresh engine with a buffer of two texels, for
    examples. *)
Definition example_job : PearlDiverSearchObject :=
  {| states := {| low := [-1; 0]; high := [-1; -1] |};
     minWeightMagnitude := 14;
     callback := 1 |}.

Definition example_engine : PearlDiver := new_PearlDiver [1; 2; 3; 4; 5; 6; 7; 8].

(** ** The twist kernel *)

(** The kernel [twist] of shaders/transform: one round of the sponge's
    permutation, for the texel at [my_coord]. A texel is an [ivec4] with the
    channels r, g, b, a; [webGLWriteBuffers] puts a cell's low word in r and
    b and its high word in g and a. The macros [HALF_LENGTH] and
    [STATE_LENGTH] and the functions [read_at], [read] and [commit] come
    from the headers, which are not among the sources: the macros and
    [read_at] are parameters, [read()] is the argument [my_vec] of [main],
    and [main] returns what it commits. GLSL integers are 32-bit; the
    bitwise operators stay within 32 bits, and the index arithmetic is on
    small non-negative numbers. *)
Module transform.

Record ivec4 : Type := mk_ivec4 { r : Z; g : Z; b : Z; a : Z }.

Section Kernel.

Variables (HALF_LENGTH STATE_LENGTH : Z).
Variable read_at : Z * Z -> ivec4.
Variable my_coord : Z * Z.

(** The column of the first texel read: the first argument of the first
    [read_at]. *)
Definition twist_source1 : Z :=
  let j := my_coord.1 in
  if j =? 0 then 0
  else (Z.rem (j - 1) 2 + 1) * HALF_LENGTH - Z.shiftr (j - 1) 1.

(** The column of the second texel read. *)
Definition twist_source2 : Z :=
  let j := my_coord.1 in
  (Z.rem j 2 + 1) * HALF_LENGTH - Z.shiftr j 1.

Definition twist : Z * Z :=
  let v1 := read_at (twist_source1, my_coord.2) in
  let v2 := read_at (twist_source2, my_coord.2) in
  let alpha := b v1 in
  let beta := a v1 in
  let gamma := a v2 in
  let delta := Z.land (Z.lor alpha (Z.lnot gamma)) (Z.lxor (b v2) beta) in
  (Z.lnot delta, Z.lor (Z.lxor alpha gamma) delta).

Definition main (my_vec : ivec4) : ivec4 :=
  if my_coord.1 <? STATE_LENGTH then
    {| r := r my_vec; g := g my_vec; b := twist.1; a := twist.2 |}
  else my_vec.

End Kernel.

End transform.

(** The truth table of the sponge ([TRUTH_TABLE] of the Curl class of
    @iota-pico/crypto, which is not part of this repository), and the entry
    the host-side transform takes for the trits [t1] and [t2]:
    [TRUTH_TABLE[t1 + (t2 << 2) + 5]]. The kernel is compared with it. *)
Module CurlTable.
Definition TRUTH_TABLE : list Z := [1; 0; -1; 2; 1; -1; 0; 2; -1; 1; 0].

Definition entry (t1 t2 : Z) : Z :=
  default 0 (TRUTH_TABLE !! Z.to_nat (t1 + Z.shiftl t2 2 + 5)).
End CurlTable.

(** The pair of bits that the switch of [searchToPair] stores for the trit
    [t], seen in one lane. *)
Definition encoded_lane (t : Z) (lane : nat) : bool * bool :=
  (lane_bit (toInt32 (enc_low t)) lane, lane_bit (toInt32 (enc_high t)) lane).

(** The value the switch of [searchToPair] takes a number for: 0, 1, and -1
    for everything else. *)
Definition default_case (trit : Z) : Z :=
  if trit =? 0 then 0 else if trit =? 1 then 1 else -1.

(** ** Runs of the engine *)

(** What can happen to the engine: a call of one of its methods, or the
    event loop firing the oldest timer. *)
Inductive Action : Type :=
| call_search (states : PearlDiverSearchStates) (minWeight : Z) (resolve : nat)
| call_setOffset (offset : Z)
| call_interrupt
| call_resume
| call_remove
| fire_timer.

Definition step `{!WebGLWorker} (act : Action) (e : PearlDiver) : PearlDiver :=
  match act with
  | call_search sts minWeight resolve => (search sts minWeight resolve e).2
  | call_setOffset offset => setOffset offset e
  | call_interrupt => interrupt e
  | call_resume => (resume e).2
  | call_remove => remove e
  | fire_timer => (run_timer e).2
  end.

Definition run `{!WebGLWorker} (acts : list Action) (e : PearlDiver) : PearlDiver :=
  foldl (fun e' act => step act e') e acts.

(** At most one round loop is pending, and none when the engine is
    [ready]. *)
Definition single_flight (e : PearlDiver) : Prop :=
  (length (timers e) <= 1)%nat /\ (_state e = ready -> timers e = []).

(** The engine is parked: interrupted, and the round loop has stopped. *)
Definition parked (e : PearlDiver) : Prop :=
  _state e = interrupted /\ timers e = [].

(** A run in which [resume] is only called on a parked engine. *)
Fixpoint resumes_when_parked `{!WebGLWorker} (acts : list Action) (e : PearlDiver)
    : Prop :=
  match acts with
  | [] => True
  | act :: acts' =>
      (act = call_resume -> parked e) /\ resumes_when_parked acts' (step act e)
  end.

(** The engine at the point where [webGLSearch], having found a match, calls
    [searchDoNext]: [finalize] has run, the row has been read back and the
    callback invoked. *)
Definition after_match `{!WebGLWorker} (searchObject : PearlDiverSearchObject)
    (e : PearlDiver) : PearlDiver :=
  let e5 := run_round searchObject e in
  let e6 := worker_call (runProgram "finalize" 1 None) e5 in
  let e7 := worker_call (readData 0 0 getDimensions_x 1) e6 in
  let nonce :=
    (fun x : list Z => x !! 3%nat)
      <$> take Curl.HASH_LENGTH
            (reduce (pack 4) (readData_result (_webGLWorker e7)) []) in
  invoke_callback searchObject (Trits_fromValue_toTrytes nonce) e7.

(** The calls that follow the round when a match was found. *)
Definition match_calls `{!WebGLWorker} : list WorkerCall :=
  [ runProgram "finalize" 1 None; readData 0 0 getDimensions_x 1 ].

(** ** Facts about the encoder *)

Section Codec.

Implicit Types (a : list Z) (states : PearlDiverSearchStates).

Lemma length_store a i v : length (store a i v) = length a.
Proof. apply length_insert. Qed.

Lemma lookup_store_eq a i v :
  (i < length a)%nat -> store a i v !! i = Some (toInt32 v).
Proof. intros. unfold store. by apply list_lookup_insert_eq. Qed.

Lemma lookup_store_ne a i j v : i <> j -> store a i v !! j = a !! j.
Proof. intros. unfold store. by apply list_lookup_insert_ne. Qed.

Lemma encode_trit_low trit index states :
  low (encode_trit trit index states) = store (low states) index (enc_low trit).
Proof. unfold encode_trit, enc_low. by repeat case_match. Qed.

Lemma encode_trit_high trit index states :
  high (encode_trit trit index states) = store (high states) index (enc_high trit).
Proof. unfold encode_trit, enc_high. by repeat case_match. Qed.

Lemma forEach_from_length state : forall k states,
  length (low (forEach_from encode_trit k state states)) = length (low states) /\
  length (high (forEach_from encode_trit k state states)) = length (high states).
Proof.
  induction state as [|t state IH]; intros k states; simpl; [done|].
  destruct (IH (S k) (encode_trit t k states)) as [-> ->].
  by rewrite encode_trit_low, encode_trit_high, !length_store.
Qed.

(** Cells that the loop does not visit keep their contents. *)
Lemma forEach_from_untouched state : forall k states i,
  (i < k \/ k + length state <= i)%nat ->
  low (forEach_from encode_trit k state states) !! i = low states !! i /\
  high (forEach_from encode_trit k state states) !! i = high states !! i.
Proof.
  induction state as [|t state IH]; intros k states i Hi; simpl in *; [done|].
  destruct (IH (S k) (encode_trit t k states) i) as [-> ->]; [lia|].
  rewrite encode_trit_low, encode_trit_high.
  rewrite !lookup_store_ne by lia. done.
Qed.

(** A visited cell holds the encoding of its trit. *)
Lemma forEach_from_visited state : forall k states j t,
  state !! j = Some t ->
  (k + j < length (low states))%nat ->
  (k + j < length (high states))%nat ->
  low (forEach_from encode_trit k state states) !! (k + j)%nat
    = Some (toInt32 (enc_low t)) /\
  high (forEach_from encode_trit k state states) !! (k + j)%nat
    = Some (toInt32 (enc_high t)).
Proof.
  induction state as [|x state IH]; intros k states j t Hj Hl Hh; [done|].
  destruct j as [|j]; simpl in *.
  - injection Hj as ->. rewrite Nat.add_0_r in *.
    destruct (forEach_from_untouched state (S k) (encode_trit t k states) k)
      as [-> ->]; [lia|].
    rewrite encode_trit_low, encode_trit_high.
    rewrite !lookup_store_eq by lia. done.
  - replace (k + S j)%nat with (S k + j)%nat by lia.
    apply IH; [done| |].
    + rewrite encode_trit_low, length_store. lia.
    + rewrite encode_trit_high, length_store. lia.
Qed.

Lemma searchOffset_length states offset :
  length (low (searchOffset states offset)) = length (low states) /\
  length (high (searchOffset states offset)) = length (high states).
Proof. unfold searchOffset; simpl. by rewrite !length_store. Qed.

Lemma searchOffset_other states offset i :
  ~ (offset <= i < offset + 4)%nat ->
  low (searchOffset states offset) !! i = low states !! i /\
  high (searchOffset states offset) !! i = high states !! i.
Proof.
  intros Hi. unfold searchOffset; simpl.
  rewrite !lookup_store_ne by lia. done.
Qed.

Lemma searchOffset_seeds states offset :
  (offset + 4 <= length (low states))%nat ->
  (offset + 4 <= length (high states))%nat ->
  (low (searchOffset states offset) !! (offset + 0)%nat = Some (toInt32 LOW_0) /\
   low (searchOffset states offset) !! (offset + 1)%nat = Some (toInt32 LOW_1) /\
   low (searchOffset states offset) !! (offset + 2)%nat = Some (toInt32 LOW_2) /\
   low (searchOffset states offset) !! (offset + 3)%nat = Some (toInt32 LOW_3)) /\
  (high (searchOffset states offset) !! (offset + 0)%nat = Some (toInt32 HIGH_0) /\
   high (searchOffset states offset) !! (offset + 1)%nat = Some (toInt32 HIGH_1) /\
   high (searchOffset states offset) !! (offset + 2)%nat = Some (toInt32 HIGH_2) /\
   high (searchOffset states offset) !! (offset + 3)%nat = Some (toInt32 HIGH_3)).
Proof.
  intros Hl Hh. unfold searchOffset; simpl.
  repeat split;
    repeat first
      [ rewrite lookup_store_eq by (rewrite ?length_store; lia); reflexivity
      | rewrite lookup_store_ne by lia ].
Qed.

Lemma length_new_Int32Array n : length (new_Int32Array n) = n.
Proof. apply length_replicate. Qed.

Lemma searchToPair_length state :
  length (low (searchToPair state)) = Curl.STATE_LENGTH /\
  length (high (searchToPair state)) = Curl.STATE_LENGTH.
Proof.
  unfold searchToPair, forEach.
  destruct (searchOffset_length
    (forEach_from encode_trit 0 state
       {| low := new_Int32Array Curl.STATE_LENGTH;
          high := new_Int32Array Curl.STATE_LENGTH |}) NONCE_START) as [-> ->].
  destruct (forEach_from_length state 0
    {| low := new_Int32Array Curl.STATE_LENGTH;
       high := new_Int32Array Curl.STATE_LENGTH |}) as [-> ->].
  cbn [low high]. by rewrite length_new_Int32Array.
Qed.

(** Outside the seed cells, [searchToPair] leaves what the switch stored
    for the trit at that position. *)
Lemma searchToPair_cell state i t :
  state !! i = Some t -> (i < Curl.STATE_LENGTH)%nat -> ~ seed_cell i ->
  low (searchToPair state) !! i = Some (toInt32 (enc_low t)) /\
  high (searchToPair state) !! i = Some (toInt32 (enc_high t)).
Proof.
  intros Ht Hi Hseed. unfold searchToPair, forEach.
  match goal with |- context [searchOffset ?s _] =>
    destruct (searchOffset_other s NONCE_START i Hseed) as [-> ->];
    destruct (forEach_from_visited state 0
      {| low := new_Int32Array Curl.STATE_LENGTH;
         high := new_Int32Array Curl.STATE_LENGTH |} i t Ht) as [H1 H2]
  end; cbn [low high]; rewrite ?length_new_Int32Array; try lia.
  cbn [Nat.add] in H1, H2. by rewrite H1, H2.
Qed.

Lemma searchToPair_seeds state :
  (low (searchToPair state) !! (NONCE_START + 0)%nat = Some (toInt32 LOW_0) /\
   low (searchToPair state) !! (NONCE_START + 1)%nat = Some (toInt32 LOW_1) /\
   low (searchToPair state) !! (NONCE_START + 2)%nat = Some (toInt32 LOW_2) /\
   low (searchToPair state) !! (NONCE_START + 3)%nat = Some (toInt32 LOW_3)) /\
  (high (searchToPair state) !! (NONCE_START + 0)%nat = Some (toInt32 HIGH_0) /\
   high (searchToPair state) !! (NONCE_START + 1)%nat = Some (toInt32 HIGH_1) /\
   high (searchToPair state) !! (NONCE_START + 2)%nat = Some (toInt32 HIGH_2) /\
   high (searchToPair state) !! (NONCE_START + 3)%nat = Some (toInt32 HIGH_3)).
Proof.
  unfold searchToPair, forEach. apply searchOffset_seeds.
  - destruct (forEach_from_length state 0
      {| low := new_Int32Array Curl.STATE_LENGTH;
         high := new_Int32Array Curl.STATE_LENGTH |}) as [-> _].
    cbn [low high]. rewrite length_new_Int32Array.
    unfold NONCE_START, Curl.STATE_LENGTH. lia.
  - destruct (forEach_from_length state 0
      {| low := new_Int32Array Curl.STATE_LENGTH;
         high := new_Int32Array Curl.STATE_LENGTH |}) as [_ ->].
    cbn [low high]. rewrite length_new_Int32Array.
    unfold NONCE_START, Curl.STATE_LENGTH. lia.
Qed.

End Codec.

(** ** Lanes *)

Lemma toInt32_HIGH_BITS : toInt32 HIGH_BITS = -1.
Proof. reflexivity. Qed.

Lemma toInt32_LOW_BITS : toInt32 LOW_BITS = 0.
Proof. reflexivity. Qed.

Lemma lane_bit_HIGH_BITS b : lane_bit (toInt32 HIGH_BITS) b = true.
Proof. rewrite toInt32_HIGH_BITS. unfold lane_bit. apply Z.bits_m1. lia. Qed.

Lemma lane_bit_LOW_BITS b : lane_bit (toInt32 LOW_BITS) b = false.
Proof. rewrite toInt32_LOW_BITS. unfold lane_bit. apply Z.bits_0. Qed.

Lemma lane_cases (P : nat -> Prop) :
  Forall P (seq 0 32) -> forall b, (b < 32)%nat -> P b.
Proof.
  intros HP b Hb. rewrite Forall_forall in HP. apply HP.
  apply elem_of_seq. lia.
Qed.

Lemma seed_bits_valid b :
  (b < 32)%nat -> Forall (fun p => p <> Some (false, false)) (seed_bits b).
Proof.
  revert b. apply lane_cases.
  apply (bool_decide_unpack _). vm_compute. exact I.
Qed.

Lemma seed_bits_distinct b1 b2 :
  (b1 < 32)%nat -> (b2 < 32)%nat -> seed_bits b1 = seed_bits b2 -> b1 = b2.
Proof.
  assert (Forall (fun x => Forall (fun y => seed_bits x = seed_bits y -> x = y)
                                 (seq 0 32)) (seq 0 32)) as Hall.
  { apply (bool_decide_unpack _). vm_compute. exact I. }
  intros H1 H2.
  apply (lane_cases _ (lane_cases _ Hall b1 H1) b2 H2).
Qed.

Lemma lane_seed_searchToPair state b :
  lane_seed (searchToPair state) b = seed_bits b.
Proof.
  destruct (searchToPair_seeds state) as [(L0 & L1 & L2 & L3) (H0 & H1 & H2 & H3)].
  unfold lane_seed, seed_bits, seed_words, cell_bits. cbn [fmap list_fmap fst snd].
  by rewrite L0, L1, L2, L3, H0, H1, H2, H3.
Qed.

Lemma seed_cell_cases i :
  seed_cell i ->
  i = (NONCE_START + 0)%nat \/ i = (NONCE_START + 1)%nat \/
  i = (NONCE_START + 2)%nat \/ i = (NONCE_START + 3)%nat.
Proof. unfold seed_cell. lia. Qed.

Lemma seed_cell_bits state i b :
  seed_cell i ->
  exists p, cell_bits (searchToPair state) i b = Some p /\ Some p ∈ seed_bits b.
Proof.
  intros Hs. apply seed_cell_cases in Hs.
  destruct (searchToPair_seeds state) as [(L0 & L1 & L2 & L3) (H0 & H1 & H2 & H3)].
  unfold cell_bits, seed_bits, seed_words. cbn [fmap list_fmap fst snd].
  destruct Hs as [->|[->|[->| ->]]].
  - rewrite L0, H0. eexists. split; [reflexivity|]. apply list_elem_of_here.
  - rewrite L1, H1. eexists. split; [reflexivity|].
    do 1 apply list_elem_of_further. apply list_elem_of_here.
  - rewrite L2, H2. eexists. split; [reflexivity|].
    do 2 apply list_elem_of_further. apply list_elem_of_here.
  - rewrite L3, H3. eexists. split; [reflexivity|].
    do 3 apply list_elem_of_further. apply list_elem_of_here.
Qed.

(** Every cell of an encoded state, seed or not, holds a valid pattern when
    a trit was given for it. *)
Lemma searchToPair_cell_valid state i t b :
  state !! i = Some t -> (i < Curl.STATE_LENGTH)%nat -> (b < 32)%nat ->
  exists l h, cell_bits (searchToPair state) i b = Some (l, h) /\ (l, h) <> (false, false).
Proof.
  intros Ht Hi Hb.
  destruct (decide (seed_cell i)) as [Hs|Hs].
  - destruct (seed_cell_bits state i b Hs) as ([l h] & Hc & Hin).
    exists l, h. split; [done|].
    pose proof (seed_bits_valid b Hb) as Hv.
    rewrite Forall_forall in Hv. specialize (Hv _ Hin). congruence.
  - destruct (searchToPair_cell state i t Ht Hi Hs) as [Hl Hh].
    unfold cell_bits. rewrite Hl, Hh. eexists _, _. split; [done|].
    unfold enc_low, enc_high. repeat case_match;
      rewrite ?lane_bit_HIGH_BITS, ?lane_bit_LOW_BITS; congruence.
Qed.

Lemma cell_bits_enc t b :
  is_trit t ->
  Some (lane_bit (toInt32 (enc_low t)) b, lane_bit (toInt32 (enc_high t)) b)
    = rule_bits t.
Proof.
  intros [->|[->| ->]].
  - change (enc_low (-1)) with HIGH_BITS. change (enc_high (-1)) with LOW_BITS.
    by rewrite lane_bit_HIGH_BITS, lane_bit_LOW_BITS.
  - change (enc_low 0) with HIGH_BITS. change (enc_high 0) with HIGH_BITS.
    by rewrite lane_bit_HIGH_BITS.
  - change (enc_low 1) with LOW_BITS. change (enc_high 1) with HIGH_BITS.
    by rewrite lane_bit_HIGH_BITS, lane_bit_LOW_BITS.
Qed.

Lemma decode_cell_enc t b :
  is_trit t ->
  decode_cell b (toInt32 (enc_low t)) (toInt32 (enc_high t)) = Some t.
Proof.
  intros Ht. pose proof (cell_bits_enc t b Ht) as Hc.
  unfold decode_cell.
  destruct Ht as [->|[->| ->]]; injection Hc as -> ->; reflexivity.
Qed.

Lemma decode_cells_total b : forall ls hs,
  length ls = length hs ->
  (forall i l h, ls !! i = Some l -> hs !! i = Some h -> is_Some (decode_cell b l h)) ->
  exists d, decode_cells b ls hs = Some d /\ length d = length ls /\
    forall i l h, ls !! i = Some l -> hs !! i = Some h -> d !! i = decode_cell b l h.
Proof.
  induction ls as [|l ls IH]; intros [|h hs] Hlen Hall; try discriminate.
  - exists []. repeat split. intros i l h Hl. done.
  - destruct (Hall 0%nat l h eq_refl eq_refl) as [t Ht].
    destruct (IH hs) as (d & Hd & Hlend & Hlook).
    + simpl in Hlen. lia.
    + intros i l' h' Hl Hh. apply (Hall (S i)); done.
    + exists (t :: d). simpl. rewrite Ht, Hd. repeat split.
      * simpl. lia.
      * intros [|i] l' h' Hl Hh; simpl in *.
        -- congruence.
        -- by apply Hlook.
Qed.

(** ** The encoder: claims *)

(** C5, as stated, fails at a seed cell: the trit 0 at position 162 does not
    come out as (1,1) in lane 2, because [searchOffset] has replaced the cell
    by the seed words [LOW_0], [HIGH_0]. *)
Lemma searchToPair_rule_fails_at_seed :
  let t := replicate Curl.STATE_LENGTH 0 in
  t !! 162%nat = Some 0 /\
  rule_bits 0 = Some (true, true) /\
  cell_bits (searchToPair t) 162 2 = Some (false, true).
Proof. vm_compute. done. Qed.

(** C5 (amended): for every input trit that lies outside the four seed
    cells, [searchToPair] stores the bit-slice rule in every one of the 32
    lanes of the cell: 0 is (1,1), +1 is (0,1), -1 is (1,0); and no cell
    that has an input trit, the seed cells included, holds (0,0) in any
    lane. *)
Theorem searchToPair_trit_rule (state : list Z) (i : nat) (t : Z) (b : nat) :
  state !! i = Some t -> is_trit t ->
  (i < Curl.STATE_LENGTH)%nat -> (b < 32)%nat ->
  (~ seed_cell i -> cell_bits (searchToPair state) i b = rule_bits t) /\
  (exists l h, cell_bits (searchToPair state) i b = Some (l, h) /\
               (l, h) <> (false, false)).
Proof.
  intros Hi Ht Hlt Hb. split.
  - intros Hs. destruct (searchToPair_cell state i t Hi Hlt Hs) as [Hl Hh].
    unfold cell_bits. rewrite Hl, Hh. by apply cell_bits_enc.
  - by apply (searchToPair_cell_valid state i t b).
Qed.

Lemma searchToPair_trit_rule_witness :
  let state := [0; 1; -1] in
  cell_bits (searchToPair state) 1 7 = rule_bits 1 /\
  (exists l h, cell_bits (searchToPair state) 1 7 = Some (l, h) /\
               (l, h) <> (false, false)).
Proof.
  destruct (searchToPair_trit_rule [0; 1; -1] 1%nat 1 7%nat) as [H1 H2].
  - reflexivity.
  - right; right; reflexivity.
  - unfold Curl.STATE_LENGTH; lia.
  - lia.
  - split; [apply H1; unfold seed_cell, NONCE_START; lia | exact H2].
Defined.

(** C3, as stated, fails: the all-zero vector does not come back from lane 0,
    which reads the seed words at the cells 162 to 165. *)
Lemma decode_searchToPair_not_inverse :
  let t := replicate Curl.STATE_LENGTH 0 in
  length t = Curl.STATE_LENGTH /\ Forall is_trit t /\
  decode 0 (searchToPair t) <> Some t.
Proof.
  split; [reflexivity|]. split.
  - apply Forall_replicate. right; left; reflexivity.
  - vm_compute. discriminate.
Qed.

(** C3 (amended): for every valid trit vector [t] and every lane [b],
    decoding [searchToPair t] succeeds and gives a vector as long as [t]
    that agrees with [t] at every cell other than the four seed cells 162
    to 165. *)
Theorem decode_searchToPair (t : list Z) (b : nat) :
  valid_trits t -> (b < 32)%nat ->
  exists d, decode b (searchToPair t) = Some d /\
    length d = length t /\
    forall i, ~ seed_cell i -> d !! i = t !! i.
Proof.
  intros [Hlen Htr] Hb.
  destruct (searchToPair_length t) as [Hll Hlh].
  destruct (decode_cells_total b (low (searchToPair t)) (high (searchToPair t)))
    as (d & Hd & Hdl & Hlook).
  - congruence.
  - intros i l h Hl Hh.
    assert (i < Curl.STATE_LENGTH)%nat as Hi.
    { rewrite <- Hll. apply lookup_lt_is_Some. eauto. }
    destruct (lookup_lt_is_Some_2 t i) as [ti Hti]; [lia|].
    destruct (searchToPair_cell_valid t i ti b Hti Hi Hb) as (l' & h' & Hc & Hne).
    unfold cell_bits in Hc. rewrite Hl, Hh in Hc. injection Hc as <- <-.
    unfold decode_cell.
    destruct (lane_bit l b), (lane_bit h b); first [done | by eexists].
  - exists d. split; [exact Hd|]. split; [congruence|].
    intros i Hs.
    destruct (decide (i < Curl.STATE_LENGTH)%nat) as [Hi|Hi].
    + destruct (lookup_lt_is_Some_2 t i) as [ti Hti]; [lia|].
      destruct (searchToPair_cell t i ti Hti Hi Hs) as [Hl Hh].
      rewrite (Hlook i _ _ Hl Hh), Hti. apply decode_cell_enc.
      rewrite Forall_forall in Htr. apply Htr.
      apply list_elem_of_lookup. eauto.
    + rewrite (lookup_ge_None_2 d) by lia. rewrite (lookup_ge_None_2 t) by lia. done.
Qed.

Lemma decode_searchToPair_witness :
  exists d, decode 5 (searchToPair (replicate Curl.STATE_LENGTH 1)) = Some d /\
    length d = length (replicate Curl.STATE_LENGTH 1) /\
    forall i, ~ seed_cell i -> d !! i = replicate Curl.STATE_LENGTH 1 !! i.
Proof.
  apply (decode_searchToPair (replicate Curl.STATE_LENGTH 1) 5).
  - split; [apply length_replicate|].
    apply Forall_replicate. right; right; reflexivity.
  - lia.
Defined.

(** C9, as stated, fails: the last third of the state starts at cell
    729 - 729/3 = 486, and that cell of an encoded all-zero vector holds the
    encoding of its trit, not a seed word. *)
Lemma searchToPair_seed_not_in_last_third :
  let t := replicate Curl.STATE_LENGTH 0 in
  let nonce_field := (Curl.STATE_LENGTH - Curl.STATE_LENGTH / 3)%nat in
  nonce_field = 486%nat /\
  low (searchToPair t) !! nonce_field = Some (-1) /\
  high (searchToPair t) !! nonce_field = Some (-1) /\
  toInt32 LOW_0 = -613566757 /\ toInt32 HIGH_0 = -1227133514.
Proof. vm_compute. done. Qed.

Lemma take4_drop (l : list Z) (n : nat) (a b c d : Z) :
  l !! (n + 0)%nat = Some a -> l !! (n + 1)%nat = Some b ->
  l !! (n + 2)%nat = Some c -> l !! (n + 3)%nat = Some d ->
  take 4 (drop n l) = [a; b; c; d].
Proof.
  rewrite <- !lookup_drop.
  destruct (drop n l) as [|x0 [|x1 [|x2 [|x3 r]]]]; simpl; try discriminate.
  intros [= ->] [= ->] [= ->] [= ->]. reflexivity.
Qed.

(** C9 (amended): for every input, [searchToPair] overwrites four cells
    starting at [NONCE_START] = 162, which is [Curl.HASH_LENGTH] minus a
    third of it (the nonce field is the last third of the first 243 cells,
    not of the whole state), with [LOW_0] to [LOW_3] on the low half and
    [HIGH_0] to [HIGH_3] on the high half, as an [Int32Array] keeps them;
    in these four cells the 32 lanes carry 32 different patterns. *)
Theorem searchToPair_counter_seeds (state : list Z) :
  NONCE_START = (Curl.HASH_LENGTH - Curl.HASH_LENGTH / 3)%nat /\
  take 4 (drop NONCE_START (low (searchToPair state)))
    = toInt32 <$> [LOW_0; LOW_1; LOW_2; LOW_3] /\
  take 4 (drop NONCE_START (high (searchToPair state)))
    = toInt32 <$> [HIGH_0; HIGH_1; HIGH_2; HIGH_3] /\
  (forall b1 b2, (b1 < 32)%nat -> (b2 < 32)%nat ->
     lane_seed (searchToPair state) b1 = lane_seed (searchToPair state) b2 ->
     b1 = b2).
Proof.
  destruct (searchToPair_seeds state) as [(L0 & L1 & L2 & L3) (H0 & H1 & H2 & H3)].
  split; [reflexivity|]. split; [by apply take4_drop|]. split; [by apply take4_drop|].
  intros b1 b2 Hb1 Hb2. rewrite !lane_seed_searchToPair. by apply seed_bits_distinct.
Qed.

Lemma searchToPair_counter_seeds_witness :
  lane_seed (searchToPair [0; 1]) 0 <> lane_seed (searchToPair [0; 1]) 1.
Proof.
  intros Heq.
  pose proof (proj2 (proj2 (proj2 (searchToPair_counter_seeds [0; 1])))
                0%nat 1%nat ltac:(lia) ltac:(lia) Heq) as H.
  discriminate H.
Defined.

(** ** The state machine: facts *)

Arguments webGLWriteBuffers : simpl never.
Arguments snapshot : simpl never.
Arguments searchToPair : simpl never.

Section OrchestratorFacts.

Context `{!WebGLWorker}.

Lemma webGLFindNonce_Some so e :
  exists e', webGLFindNonce (Some so) e = (Normal, e') /\
    _state e' = _state e /\ _queue e' = _queue e /\
    timers e' = timers e ++ [so] /\ resolved e' = resolved e /\
    _offset e' = _offset e /\
    _webGLWorker e' = _webGLWorker e ++
      [ writeData (webGLWriteBuffers (states so) (_currentBuffer e));
        runProgram "init" 1 (Some ("gr_offset", _offset e)) ].
Proof.
  eexists. split; [reflexivity|]. simpl. by rewrite <- app_assoc.
Qed.

(** With a job at the head and the engine not [searching], [searchDoNext]
    takes the job off the queue and starts it. *)
Lemma searchDoNext_dispatch e next rest :
  _state e <> searching -> _queue e = next :: rest ->
  exists e', searchDoNext e = (Normal, e') /\
    _state e' = searching /\ _queue e' = rest /\
    timers e' = timers e ++ [next] /\ resolved e' = resolved e /\
    _offset e' = _offset e /\
    _webGLWorker e' = _webGLWorker e ++
      [ writeData (webGLWriteBuffers (states next) (_currentBuffer e));
        runProgram "init" 1 (Some ("gr_offset", _offset e)) ].
Proof.
  intros Hs Hq. unfold searchDoNext. rewrite Hq. cbn [head tail].
  destruct (decide (_state (set_queue rest e) <> searching)) as [_|Hn];
    [|by destruct Hn].
  destruct (webGLFindNonce_Some next (set_state searching (set_queue rest e)))
    as (e' & -> & ? & ? & ? & ? & ? & ?).
  exists e'. by repeat split.
Qed.

(** While [searching], [searchDoNext] only drops the head and goes back to
    [ready]. *)
Lemma searchDoNext_searching e :
  _state e = searching ->
  searchDoNext e = (Normal, set_state ready (set_queue (tail (_queue e)) e)).
Proof.
  intros Hs. unfold searchDoNext.
  destruct (decide (_state (set_queue (tail (_queue e)) e) <> searching)) as [Hn|_];
    [by destruct Hn|done].
Qed.

Lemma searchDoNext_empty e :
  _queue e = [] -> _state e <> searching ->
  searchDoNext e = (TypeError, set_state searching e).
Proof.
  intros Hq Hs. unfold searchDoNext. rewrite Hq. cbn [head tail].
  destruct (decide (_state (set_queue [] e) <> searching)) as [_|Hn];
    [|by destruct Hn].
  destruct e; simpl in *; subst; reflexivity.
Qed.

(** C8: [interrupt] takes a [searching] engine to [interrupted]; in the
    states [ready] and [interrupted] it changes nothing; in every state it
    leaves the queue, the offset and all the rest alone, and calling it
    again changes nothing more. *)
Theorem interrupt_only_when_searching (e : PearlDiver) :
  (_state e = searching -> _state (interrupt e) = interrupted) /\
  (_state e <> searching -> interrupt e = e) /\
  _queue (interrupt e) = _queue e /\
  _offset (interrupt e) = _offset e /\
  _webGLWorker (interrupt e) = _webGLWorker e /\
  _currentBuffer (interrupt e) = _currentBuffer e /\
  timers (interrupt e) = timers e /\
  resolved (interrupt e) = resolved e /\
  interrupt (interrupt e) = interrupt e.
Proof.
  unfold interrupt.
  destruct (decide (_state e = searching)) as [Hs|Hs]; simpl.
  - repeat split; try done.
  - destruct (decide (_state e = searching)); [done|]. repeat split; done.
Qed.

(** C4: with [minWeight <= 0] or [minWeight >= Curl.HASH_LENGTH], [search]
    returns at once a promise rejected with the [CoreError]
    "Bad Min-Weight Magnitude", and the engine is exactly as before: nothing
    is queued, the buffer is not written, the worker is not called. *)
Theorem search_bad_minWeight (states : PearlDiverSearchStates) (minWeight : Z)
    (resolve : nat) (e : PearlDiver) :
  minWeight <= 0 \/ Z.of_nat Curl.HASH_LENGTH <= minWeight ->
  search states minWeight resolve e
    = (Rejected (CoreError "Bad Min-Weight Magnitude" minWeight), e).
Proof.
  intros Hbad. unfold search.
  destruct ((minWeight >=? Z.of_nat Curl.HASH_LENGTH) || (minWeight <=? 0)) eqn:E;
    [done|].
  apply orb_false_iff in E as [E1 E2]. lia.
Qed.

(** C2: called while the engine is [searching], [searchDoNext] takes the
    head off the queue, sets the engine [ready] and does nothing with the
    job: no call on the worker, no buffer write, no timer. Called in another
    state with a job at the head, it takes the job off the queue, sets the
    engine [searching] and starts the job: the buffer is written from its
    states, uploaded, [init] is run with the offset, and the first round is
    scheduled. *)
Theorem searchDoNext_by_state (e : PearlDiver) :
  (_state e = searching ->
   exists e', searchDoNext e = (Normal, e') /\
     _queue e' = tail (_queue e) /\ _state e' = ready /\
     _webGLWorker e' = _webGLWorker e /\
     _currentBuffer e' = _currentBuffer e /\
     timers e' = timers e /\ resolved e' = resolved e) /\
  (forall next rest,
   _state e <> searching -> _queue e = next :: rest ->
   exists e', searchDoNext e = (Normal, e') /\
     _queue e' = rest /\ _state e' = searching /\
     _webGLWorker e' = _webGLWorker e ++
       [ writeData (webGLWriteBuffers (states next) (_currentBuffer e));
         runProgram "init" 1 (Some ("gr_offset", _offset e)) ] /\
     timers e' = timers e ++ [next] /\ resolved e' = resolved e).
Proof.
  split.
  - intros Hs. rewrite (searchDoNext_searching e Hs). eexists. by repeat split.
  - intros next rest Hs Hq.
    destruct (searchDoNext_dispatch e next rest Hs Hq)
      as (e' & ? & ? & ? & ? & ? & ? & ?).
    exists e'. by repeat split.
Qed.

(** C10: with an empty queue and the engine not [searching], [resume] takes
    [undefined] off the queue, sets the engine [searching] and calls
    [webGLFindNonce] on it, which ends in a [TypeError] at
    [searchObject.states]; the engine is left [searching] with nothing
    running. *)
Theorem resume_empty_queue (e : PearlDiver) :
  _queue e = [] -> _state e <> searching ->
  head (_queue e) = None /\
  resume e = webGLFindNonce (head (_queue e)) (set_state searching e) /\
  resume e = (TypeError, set_state searching e) /\
  timers (resume e).2 = timers e /\
  _webGLWorker (resume e).2 = _webGLWorker e.
Proof.
  intros Hq Hs. unfold resume. rewrite (searchDoNext_empty e Hq Hs), Hq.
  by repeat split.
Qed.

(** C6: with [0 < minWeight < Curl.HASH_LENGTH], [search] puts the new job
    at the tail of the queue. If the engine is [ready] it then starts the
    job at the head of the queue; in any other state, [searching] in
    particular, that is all it does: no call on the worker, no buffer
    write, no timer, the state as it was. *)
Theorem search_enqueues (sts : PearlDiverSearchStates) (minWeight : Z)
    (resolve : nat) (e : PearlDiver) :
  0 < minWeight < Z.of_nat Curl.HASH_LENGTH ->
  let job := {| states := sts; minWeightMagnitude := minWeight;
                callback := resolve |} in
  (_state e = ready ->
   exists hd rest e',
     _queue e ++ [job] = hd :: rest /\
     search sts minWeight resolve e = (Pending, e') /\
     _state e' = searching /\ _queue e' = rest /\
     timers e' = timers e ++ [hd] /\
     _webGLWorker e' = _webGLWorker e ++
       [ writeData (webGLWriteBuffers (states hd) (_currentBuffer e));
         runProgram "init" 1 (Some ("gr_offset", _offset e)) ]) /\
  (_state e <> ready ->
   search sts minWeight resolve e = (Pending, set_queue (_queue e ++ [job]) e) /\
   forall e', search sts minWeight resolve e = (Pending, e') ->
     _queue e' = _queue e ++ [job] /\ _state e' = _state e /\
     _webGLWorker e' = _webGLWorker e /\
     _currentBuffer e' = _currentBuffer e /\ timers e' = timers e).
Proof.
  intros Hmw job. unfold search.
  destruct ((minWeight >=? Z.of_nat Curl.HASH_LENGTH) || (minWeight <=? 0)) eqn:E.
  { apply orb_true_iff in E as [E|E]; lia. }
  fold job. split.
  - intros Hr.
    destruct (decide (_state (set_queue (_queue e ++ [job]) e) = ready)) as [_|Hn];
      [|by destruct Hn].
    destruct (_queue e ++ [job]) as [|hd rest] eqn:Hq.
    { by destruct (_queue e). }
    destruct (searchDoNext_dispatch (set_queue (hd :: rest) e) hd rest)
      as (e' & -> & ? & ? & ? & ? & ? & ?); [simpl; congruence|done|].
    exists hd, rest, e'. by repeat split.
  - intros Hr.
    destruct (decide (_state (set_queue (_queue e ++ [job]) e) = ready)) as [Hn|_];
      [by destruct Hr|].
    split; [done|]. intros e' [= <-]. by repeat split.
Qed.

End OrchestratorFacts.

(** ** The buffer layout: facts *)

Section Snapshot.

Local Open Scope nat_scope.

Lemma reduce_from_snoc {A B : Type} (f : B -> A -> nat -> B) (l : list A) (x : A) :
  forall k acc,
  reduce_from f k (l ++ [x]) acc = f (reduce_from f k l acc) x (k + length l).
Proof.
  induction l as [|y l IH]; intros k acc; simpl.
  - by rewrite Nat.add_0_r.
  - rewrite IH. f_equal. lia.
Qed.

Lemma quarter_exact n : n mod 4 = 0 -> (n + 3) / 4 * 4 = n /\ (n + 1 + 3) / 4 = (n + 3) / 4 + 1.
Proof.
  intros Hm. pose proof (Nat.div_mod_eq n 4) as Hn. rewrite Hm, Nat.add_0_r in Hn.
  set (q := n / 4) in *. rewrite Hn.
  replace (4 * q + 3) with (3 + q * 4) by lia.
  replace (4 * q + 1 + 3) with (0 + (q + 1) * 4) by lia.
  rewrite !Nat.div_add by lia. simpl. lia.
Qed.

Lemma quarter_partial n :
  n mod 4 <> 0 ->
  (n + 1 + 3) / 4 = (n + 3) / 4 /\
  4 * ((n + 3) / 4 - 1) <= n /\ n - 4 * ((n + 3) / 4 - 1) < 4 /\ 0 < (n + 3) / 4.
Proof.
  intros Hm. pose proof (Nat.div_mod_eq n 4) as Hn.
  pose proof (Nat.mod_upper_bound n 4 ltac:(lia)) as Hlt.
  set (q := n / 4) in *. set (m := n mod 4) in *.
  assert ((n + 3) / 4 = q + 1) as ->.
  { rewrite Hn. replace (4 * q + m + 3) with ((m - 1) + (q + 1) * 4) by lia.
    rewrite Nat.div_add by lia. rewrite (Nat.div_small (m - 1) 4) by lia. lia. }
  assert ((n + 1 + 3) / 4 = q + 1) as ->.
  { rewrite Hn. replace (4 * q + m + 1 + 3) with (m + (q + 1) * 4) by lia.
    rewrite Nat.div_add by lia. rewrite (Nat.div_small m 4) by lia. lia. }
  lia.
Qed.

(** [reduce(pack(4), [])] cuts the buffer into texels of four words, the
    last one shorter when the length is not a multiple of four. *)
Lemma pack_texels (buffer : list Z) :
  length (reduce (pack 4) buffer []) = (length buffer + 3) / 4 /\
  forall i, i < (length buffer + 3) / 4 ->
    reduce (pack 4) buffer [] !! i = Some (take 4 (drop (4 * i) buffer)).
Proof.
  induction buffer as [|x l IH] using rev_ind; [split; [done|]; intros i Hi; simpl in Hi; lia|].
  destruct IH as [IHlen IHlook].
  unfold reduce in *. rewrite reduce_from_snoc, length_app. cbn [length Nat.add].
  set (r := reduce_from (pack 4) 0 l []) in *.
  set (n := length l) in *.
  unfold pack. destruct (Nat.eqb_spec (n mod 4) 0) as [Hm|Hm].
  - destruct (quarter_exact n Hm) as [Hq1 Hq2]. rewrite Hq2. split.
    + rewrite length_app. cbn [length]. lia.
    + intros i Hi. destruct (decide (i < (n + 3) / 4)) as [Hlt|Hge].
      * rewrite lookup_app_l by lia. rewrite IHlook by done.
        rewrite drop_app_le by (fold n; lia).
        rewrite take_app_le; [done|]. rewrite length_drop. fold n. lia.
      * assert (i = (n + 3) / 4) as -> by lia.
        rewrite lookup_app_r by lia. rewrite IHlen, Nat.sub_diag.
        replace (4 * ((n + 3) / 4)) with n by lia.
        rewrite (drop_app_length' l [x] n) by done. done.
  - destruct (quarter_partial n Hm) as (Hq1 & Hq2 & Hq3 & Hq4). rewrite Hq1. split.
    + by rewrite length_alter.
    + intros i Hi. rewrite IHlen.
      destruct (decide (i = (n + 3) / 4 - 1)) as [->|Hne].
      * rewrite list_lookup_alter_eq, IHlook by lia. cbn [fmap option_fmap option_map].
        rewrite drop_app_le by (fold n; lia).
        rewrite take_app_ge by (rewrite length_drop; fold n; lia).
        rewrite length_drop. fold n.
        rewrite (take_ge (drop _ l)) by (rewrite length_drop; fold n; lia).
        do 2 f_equal. symmetry. apply take_ge. cbn [length]. lia.
      * rewrite list_lookup_alter_ne by lia. rewrite IHlook by done.
        rewrite drop_app_le by (fold n; lia).
        rewrite take_app_le; [done|]. rewrite length_drop. fold n. lia.
Qed.

Lemma push_channels_columns (texels : list (list Z)) :
  forall k c0 c1,
  reduce_from push_channels k texels [c0; c1]
    = [c0 ++ ((fun v => load v 0) <$> texels); c1 ++ ((fun v => load v 1) <$> texels)].
Proof.
  induction texels as [|v texels IH]; intros k c0 c1; simpl.
  - by rewrite !app_nil_r.
  - unfold push_channels at 2. cbn [imap]. unfold compose. cbn [imap].
    rewrite IH, <- !app_assoc. done.
Qed.

(** [saveSearch] leaves channel 0 of the first [Curl.STATE_LENGTH] texels in
    [low] and channel 1 in [high]. *)
Lemma snapshot_columns (buffer : list Z) (states : PearlDiverSearchStates) :
  let texels := take Curl.STATE_LENGTH (reduce (pack 4) buffer []) in
  snapshot buffer states
    = {| low := (fun v => load v 0) <$> texels;
         high := (fun v => load v 1) <$> texels |}.
Proof.
  intros texels. unfold snapshot. fold texels.
  unfold reduce at 2. rewrite push_channels_columns. reflexivity.
Qed.

Lemma snapshot_lookup (buffer : list Z) (states : PearlDiverSearchStates) (i : nat) :
  i < Curl.STATE_LENGTH -> 4 * i + 1 < length buffer ->
  low (snapshot buffer states) !! i = buffer !! (4 * i) /\
  high (snapshot buffer states) !! i = buffer !! (4 * i + 1).
Proof.
  intros Hi Hb. rewrite snapshot_columns. cbn [low high].
  destruct (pack_texels buffer) as [Hlen Hlook].
  assert (i < (length buffer + 3) / 4) as Hq.
  { apply Nat.div_le_lower_bound; lia. }
  rewrite !list_lookup_fmap, lookup_take_lt, Hlook by done. cbn [fmap option_fmap option_map].
  unfold load. rewrite !lookup_take_lt, !lookup_drop by lia.
  rewrite Nat.add_0_r.
  destruct (lookup_lt_is_Some_2 buffer (4 * i)) as [a ->]; [lia|].
  destruct (lookup_lt_is_Some_2 buffer (4 * i + 1)) as [b ->]; [lia|].
  done.
Qed.

End Snapshot.

Section Upload.

Local Open Scope nat_scope.

Lemma length_write_texel states buffer i :
  length (write_texel states buffer i) = length buffer.
Proof. unfold write_texel. by rewrite !length_store. Qed.

Lemma write_texel_other states buffer i j :
  (j < 4 * i \/ 4 * i + 4 <= j) ->
  write_texel states buffer i !! j = buffer !! j.
Proof.
  intros Hj. unfold write_texel, TEXEL_SIZE.
  rewrite !lookup_store_ne by lia. done.
Qed.

Lemma write_texel_own states buffer i :
  4 * i + 3 < length buffer ->
  write_texel states buffer i !! (4 * i) = Some (toInt32 (load (low states) i)) /\
  write_texel states buffer i !! (4 * i + 1) = Some (toInt32 (load (high states) i)) /\
  write_texel states buffer i !! (4 * i + 2) = Some (toInt32 (load (low states) i)) /\
  write_texel states buffer i !! (4 * i + 3) = Some (toInt32 (load (high states) i)).
Proof.
  intros Hlen. unfold write_texel, TEXEL_SIZE.
  replace (i * 4) with (4 * i) by lia.
  repeat split;
    repeat first
      [ rewrite lookup_store_eq by (rewrite ?length_store; lia); reflexivity
      | rewrite lookup_store_ne by lia ].
Qed.

(** After the first [n] turns of the loop of [webGLWriteBuffers], the first
    [n] texels hold the job's words twice over and the rest of the buffer is
    as before. *)
Lemma write_texels states buffer n :
  let b := foldl (write_texel states) buffer (seq 0 n) in
  length b = length buffer /\
  (forall j, 4 * n <= j -> b !! j = buffer !! j) /\
  (forall i, i < n -> 4 * i + 3 < length buffer ->
     b !! (4 * i) = Some (toInt32 (load (low states) i)) /\
     b !! (4 * i + 1) = Some (toInt32 (load (high states) i)) /\
     b !! (4 * i + 2) = Some (toInt32 (load (low states) i)) /\
     b !! (4 * i + 3) = Some (toInt32 (load (high states) i))).
Proof.
  induction n as [|n IH]; cbn zeta.
  - repeat split; intros; lia.
  - cbn zeta in IH. destruct IH as (IHlen & IHrest & IHdone).
    rewrite seq_S, foldl_snoc. cbn [Nat.add].
    set (b := foldl (write_texel states) buffer (seq 0 n)) in *.
    split; [by rewrite length_write_texel|]. split.
    + intros j Hj. rewrite write_texel_other by lia. apply IHrest. lia.
    + intros i Hi Hlen. destruct (decide (i = n)) as [->|Hne].
      * apply write_texel_own. lia.
      * rewrite !write_texel_other by lia. apply IHdone; lia.
Qed.

(** [saveSearch] undoes [webGLWriteBuffers]: a job whose halves have the
    state length and hold 32-bit words gets them back from the buffer it was
    written to. *)
Lemma snapshot_webGLWriteBuffers states states' buffer :
  length (low states) = Curl.STATE_LENGTH ->
  length (high states) = Curl.STATE_LENGTH ->
  Forall (fun w => toInt32 w = w) (low states) ->
  Forall (fun w => toInt32 w = w) (high states) ->
  4 * Curl.STATE_LENGTH <= length buffer ->
  snapshot (webGLWriteBuffers states buffer) states' = states.
Proof.
  intros Hl Hh Hwl Hwh Hb.
  destruct (write_texels states buffer Curl.STATE_LENGTH) as (Hlen & _ & Hdone).
  fold (webGLWriteBuffers states buffer) in Hlen, Hdone.
  assert (forall i, i < Curl.STATE_LENGTH ->
            low (snapshot (webGLWriteBuffers states buffer) states') !! i = low states !! i /\
            high (snapshot (webGLWriteBuffers states buffer) states') !! i = high states !! i)
    as Hcells.
  { intros i Hi.
    destruct (snapshot_lookup (webGLWriteBuffers states buffer) states' i) as [-> ->];
      [done|lia|].
    destruct (Hdone i Hi) as (-> & -> & _); [lia|].
    destruct (lookup_lt_is_Some_2 (low states) i) as [l Hli]; [lia|].
    destruct (lookup_lt_is_Some_2 (high states) i) as [h Hhi]; [lia|].
    unfold load. rewrite Hli, Hhi. unfold default. cbn [from_option id].
    rewrite Forall_forall in Hwl, Hwh.
    rewrite (Hwl l), (Hwh h); [done| |]; apply list_elem_of_lookup; eauto. }
  assert (length (low (snapshot (webGLWriteBuffers states buffer) states'))
            = Curl.STATE_LENGTH /\
          length (high (snapshot (webGLWriteBuffers states buffer) states'))
            = Curl.STATE_LENGTH) as [Hsl Hsh].
  { rewrite snapshot_columns. cbn [low high].
    destruct (pack_texels (webGLWriteBuffers states buffer)) as [Hp _].
    rewrite !length_fmap, !length_take, Hp, Hlen.
    assert (Curl.STATE_LENGTH <= (length buffer + 3) / 4)
      by (apply Nat.div_le_lower_bound; lia).
    lia. }
  destruct states as [ls hs], (snapshot (webGLWriteBuffers (mkStates ls hs) buffer) states')
    as [ls' hs'] eqn:E.
  cbn [low high] in *. f_equal.
  - apply list_eq. intros i. destruct (decide (i < Curl.STATE_LENGTH)) as [Hi|Hi].
    + apply Hcells, Hi.
    + rewrite !lookup_ge_None_2 by lia. done.
  - apply list_eq. intros i. destruct (decide (i < Curl.STATE_LENGTH)) as [Hi|Hi].
    + apply Hcells, Hi.
    + rewrite !lookup_ge_None_2 by lia. done.
Qed.

End Upload.

(** ** The round loop: facts *)

Section RoundLoop.

Context `{!WebGLWorker}.

Lemma new_calls_app e e' calls :
  _webGLWorker e' = _webGLWorker e ++ calls -> new_calls e e' = calls.
Proof. intros Hc. unfold new_calls. rewrite Hc. apply drop_app_length. Qed.

Lemma run_round_fields so e :
  _state (run_round so e) = _state e /\ _queue (run_round so e) = _queue e /\
  timers (run_round so e) = timers e /\ resolved (run_round so e) = resolved e /\
  _offset (run_round so e) = _offset e /\
  _webGLWorker (run_round so e) = _webGLWorker e ++ round_calls so.
Proof.
  unfold run_round, round_calls. cbn [worker_call _state _queue timers resolved
    _offset _webGLWorker]. repeat split. by rewrite <- !app_assoc.
Qed.

(** [searchDoNext] only ever adds calls to the history, and invokes no
    callback. *)
Lemma searchDoNext_history e :
  (exists calls, _webGLWorker (searchDoNext e).2 = _webGLWorker e ++ calls) /\
  resolved (searchDoNext e).2 = resolved e.
Proof.
  destruct (decide (_state e = searching)) as [Hs|Hs].
  - rewrite (searchDoNext_searching e Hs). split; [|done].
    exists []. by rewrite app_nil_r.
  - destruct (_queue e) as [|next rest] eqn:Hq.
    + rewrite (searchDoNext_empty e Hq Hs). split; [|done].
      exists []. by rewrite app_nil_r.
    + destruct (searchDoNext_dispatch e next rest Hs Hq)
        as (e' & -> & ? & ? & ? & ? & ? & ?).
      split; [|done]. eexists. eassumption.
Qed.

End RoundLoop.

Section RoundLoopClaims.

Context `{!WebGLWorker}.

(** C1 (amended): each round ends by reading back one texel, the one at
    column [Curl.STATE_LENGTH], after [col_check]. The all-ones word (-1) in
    its third channel means still searching: unless an interruption was
    requested the loop schedules the next round, and [finalize] is not
    run. Any other word means a match: [finalize] is run exactly when the
    word is not -1, and the job's callback is then invoked. *)
Theorem webGLSearch_sentinel (so : PearlDiverSearchObject) (e : PearlDiver) :
  new_calls e (run_round so e) = round_calls so /\
  (sentinel so e = Some (-1) -> _state e <> interrupted ->
   webGLSearch so e = (Normal, setTimeout so (run_round so e))) /\
  (runProgram "finalize" 1 None ∈ new_calls e (webGLSearch so e).2
   <-> sentinel so e <> Some (-1)) /\
  (sentinel so e <> Some (-1) ->
   exists result,
     resolved (webGLSearch so e).2 = resolved e ++ [(callback so, result)]).
Proof.
  destruct (run_round_fields so e) as (Hst & Hq & Ht & Hr & Ho & Hw).
  assert (new_calls e (run_round so e) = round_calls so) as Hround
    by (by apply new_calls_app).
  split; [exact Hround|].
  unfold webGLSearch, sentinel.
  destruct (decide (readData_result (_webGLWorker (run_round so e)) !! 2%nat
                    = Some (-1))) as [Hs|Hs].
  - split; [|split].
    + intros _ Hni.
      destruct (decide (_state (run_round so e) = interrupted)) as [Hi|_]; [|done].
      congruence.
    + split; [|done]. intros Hin. exfalso.
      assert (new_calls e
                (if decide (_state (run_round so e) = interrupted)
                 then (Normal, saveSearch so (run_round so e))
                 else (Normal, setTimeout so (run_round so e))).2
              = round_calls so) as Hc.
      { destruct (decide (_state (run_round so e) = interrupted)); exact Hround. }
      rewrite Hc in Hin. unfold round_calls in Hin.
      rewrite !elem_of_cons in Hin. rewrite elem_of_nil in Hin.
      destruct Hin as [?|[?|[?|[?|[?|[]]]]]]; discriminate.
    + done.
  - set (e7 := worker_call (readData 0 0 getDimensions_x 1)
                 (worker_call (runProgram "finalize" 1 None) (run_round so e))).
    set (result := Trits_fromValue_toTrytes
           ((fun x : list Z => x !! 3%nat) <$>
              take Curl.HASH_LENGTH
                (reduce (pack 4) (readData_result (_webGLWorker e7)) []))).
    destruct (searchDoNext_history (invoke_callback so result e7))
      as [[calls Hcalls] Hres].
    split; [intros Hs'; by destruct Hs|]. split.
    + split; [done|]. intros _.
      rewrite (new_calls_app e _
        (round_calls so ++ [runProgram "finalize" 1 None;
                            readData 0 0 getDimensions_x 1] ++ calls)).
      * rewrite !elem_of_app. right. left. apply list_elem_of_here.
      * rewrite Hcalls. cbn [invoke_callback e7 worker_call _webGLWorker].
        rewrite Hw, <- !app_assoc. done.
    + intros _. exists result. rewrite Hres. subst e7.
      cbn [invoke_callback worker_call resolved]. by rewrite Hr.
Qed.

(** C7: when the sentinel reads "no match" and the engine is [interrupted],
    the round ends in [saveSearch]: the job gets as [low] and [high] the
    first and second channel of the first [Curl.STATE_LENGTH] texels of the
    current buffer, it is put back at the head of the queue, no further
    round is scheduled and no further call is made on the worker, the
    engine stays [interrupted], and the callback is not invoked. *)
Theorem webGLSearch_interrupted (so : PearlDiverSearchObject) (e : PearlDiver) :
  sentinel so e = Some (-1) -> _state e = interrupted ->
  let e5 := run_round so e in
  let e' := (webGLSearch so e).2 in
  exists so',
    webGLSearch so e = (Normal, set_queue (so' :: _queue e) e5) /\
    minWeightMagnitude so' = minWeightMagnitude so /\
    callback so' = callback so /\
    (forall i, (i < Curl.STATE_LENGTH)%nat ->
       (4 * i + 1 < length (_currentBuffer e5))%nat ->
       low (states so') !! i = _currentBuffer e5 !! (4 * i)%nat /\
       high (states so') !! i = _currentBuffer e5 !! (4 * i + 1)%nat) /\
    _queue e' = so' :: _queue e /\
    _state e' = interrupted /\
    timers e' = timers e /\
    resolved e' = resolved e /\
    new_calls e e' = round_calls so.
Proof.
  intros Hs Hi e5 e'.
  destruct (run_round_fields so e) as (Hst & Hq & Ht & Hr & Ho & Hw).
  assert (webGLSearch so e = (Normal, saveSearch so e5)) as Heq.
  { unfold webGLSearch, sentinel in *. fold e5.
    destruct (decide (readData_result (_webGLWorker e5) !! 2%nat = Some (-1)));
      [|done].
    destruct (decide (_state e5 = interrupted)) as [_|Hn]; [done|].
    destruct Hn. unfold e5. congruence. }
  exists {| states := snapshot (_currentBuffer e5) (states so);
            minWeightMagnitude := minWeightMagnitude so;
            callback := callback so |}.
  subst e'. rewrite Heq. unfold saveSearch. fold e5 in Hq, Hst, Ht, Hr, Hw.
  rewrite Hq. cbn [snd set_queue _queue _state timers resolved states
                   minWeightMagnitude callback].
  repeat split; try congruence.
  - by apply snapshot_lookup.
  - by apply snapshot_lookup.
  - by apply new_calls_app.
Qed.

End RoundLoopClaims.

(** ** The claims on concrete engines *)

(** C1, as stated, fails: when the sentinel reads all-ones the round loop
    does not run [finalize] but schedules the next round, and when it reads
    another word (here 0) it runs [finalize] and invokes the callback. *)
Lemma webGLSearch_all_ones_keeps_searching :
  let e := set_state searching example_engine in
  let no_match := (@webGLSearch (constant_worker (-1)) example_job e).2 in
  let matched := (@webGLSearch (constant_worker 0) example_job e).2 in
  @sentinel (constant_worker (-1)) example_job e = Some (-1) /\
  new_calls e no_match = round_calls example_job /\
  timers no_match = [example_job] /\
  resolved no_match = [] /\
  @sentinel (constant_worker 0) example_job e = Some 0 /\
  new_calls e matched
    = round_calls example_job ++
      [runProgram "finalize" 1 None; readData 0 0 730 1] /\
  resolved matched = [(1%nat, Trits_fromValue_toTrytes [Some 0])].
Proof. vm_compute. repeat split. Qed.

Lemma webGLSearch_sentinel_witness :
  let e := set_state searching example_engine in
  @webGLSearch (constant_worker (-1)) example_job e
    = (Normal, setTimeout example_job (@run_round (constant_worker (-1)) example_job e)) /\
  runProgram "finalize" 1 None
    ∈ new_calls e (@webGLSearch (constant_worker 0) example_job e).2.
Proof.
  intros e. split.
  - apply (proj1 (proj2 (@webGLSearch_sentinel (constant_worker (-1)) example_job e))).
    + reflexivity.
    + discriminate.
  - apply (proj1 (proj2 (proj2 (@webGLSearch_sentinel (constant_worker 0) example_job e)))).
    discriminate.
Defined.

Lemma webGLSearch_interrupted_witness :
  let e := set_state interrupted example_engine in
  let e5 := @run_round (constant_worker (-1)) example_job e in
  let e' := (@webGLSearch (constant_worker (-1)) example_job e).2 in
  exists so',
    @webGLSearch (constant_worker (-1)) example_job e
      = (Normal, set_queue (so' :: _queue e) e5) /\
    minWeightMagnitude so' = minWeightMagnitude example_job /\
    callback so' = callback example_job /\
    (forall i, (i < Curl.STATE_LENGTH)%nat ->
       (4 * i + 1 < length (_currentBuffer e5))%nat ->
       low (states so') !! i = _currentBuffer e5 !! (4 * i)%nat /\
       high (states so') !! i = _currentBuffer e5 !! (4 * i + 1)%nat) /\
    _queue e' = so' :: _queue e /\
    _state e' = interrupted /\
    timers e' = timers e /\
    resolved e' = resolved e /\
    new_calls e e' = round_calls example_job.
Proof.
  apply (@webGLSearch_interrupted (constant_worker (-1)) example_job
           (set_state interrupted example_engine)).
  - reflexivity.
  - reflexivity.
Defined.

Lemma interrupt_only_when_searching_witness :
  _state (interrupt (set_state searching example_engine)) = interrupted /\
  interrupt example_engine = example_engine.
Proof.
  split.
  - apply (proj1 (interrupt_only_when_searching (set_state searching example_engine))).
    reflexivity.
  - apply (proj1 (proj2 (interrupt_only_when_searching example_engine))).
    discriminate.
Defined.

Lemma search_bad_minWeight_witness :
  @search (constant_worker 0) (states example_job) 243 1 example_engine
    = (Rejected (CoreError "Bad Min-Weight Magnitude" 243), example_engine).
Proof.
  apply (@search_bad_minWeight (constant_worker 0)).
  right. unfold Curl.HASH_LENGTH. lia.
Defined.

Lemma searchDoNext_by_state_witness :
  (exists e', @searchDoNext (constant_worker 0)
                (set_state searching (set_queue [example_job] example_engine))
              = (Normal, e') /\
     _queue e' = [] /\ _state e' = ready /\
     _webGLWorker e' = _webGLWorker example_engine /\
     _currentBuffer e' = _currentBuffer example_engine /\
     timers e' = [] /\ resolved e' = []) /\
  (exists e', @searchDoNext (constant_worker 0)
                (set_queue [example_job] example_engine)
              = (Normal, e') /\
     _queue e' = [] /\ _state e' = searching /\
     _webGLWorker e' = _webGLWorker example_engine ++
       [ writeData (webGLWriteBuffers (states example_job)
                      (_currentBuffer example_engine));
         runProgram "init" 1 (Some ("gr_offset", 0)) ] /\
     timers e' = [] ++ [example_job] /\ resolved e' = []).
Proof.
  split.
  - apply (proj1 (@searchDoNext_by_state (constant_worker 0)
             (set_state searching (set_queue [example_job] example_engine)))).
    reflexivity.
  - apply (proj2 (@searchDoNext_by_state (constant_worker 0)
             (set_queue [example_job] example_engine)) example_job []).
    + discriminate.
    + reflexivity.
Defined.

Lemma resume_empty_queue_witness :
  head (_queue example_engine) = None /\
  @resume (constant_worker 0) example_engine
    = @webGLFindNonce (constant_worker 0) (head (_queue example_engine))
        (set_state searching example_engine) /\
  @resume (constant_worker 0) example_engine
    = (TypeError, set_state searching example_engine) /\
  timers (@resume (constant_worker 0) example_engine).2 = timers example_engine /\
  _webGLWorker (@resume (constant_worker 0) example_engine).2
    = _webGLWorker example_engine.
Proof.
  apply (@resume_empty_queue (constant_worker 0) example_engine).
  - reflexivity.
  - discriminate.
Defined.

Lemma search_enqueues_witness :
  (exists hd rest e',
     _queue example_engine ++ [example_job] = hd :: rest /\
     @search (constant_worker 0) (states example_job) 14 1 example_engine
       = (Pending, e') /\
     _state e' = searching /\ _queue e' = rest /\
     timers e' = timers example_engine ++ [hd] /\
     _webGLWorker e' = _webGLWorker example_engine ++
       [ writeData (webGLWriteBuffers (states hd) (_currentBuffer example_engine));
         runProgram "init" 1 (Some ("gr_offset", _offset example_engine)) ]) /\
  @search (constant_worker 0) (states example_job) 14 1
     (set_state searching example_engine)
    = (Pending, set_queue [example_job] (set_state searching example_engine)).
Proof.
  split.
  - apply (proj1 (@search_enqueues (constant_worker 0) (states example_job) 14 1
                    example_engine ltac:(unfold Curl.HASH_LENGTH; lia))).
    reflexivity.
  - apply (proj1 (proj2 (@search_enqueues (constant_worker 0) (states example_job)
                    14 1 (set_state searching example_engine)
                    ltac:(unfold Curl.HASH_LENGTH; lia)) ltac:(discriminate))).
Defined.

(** ** The twist kernel: facts *)

Section TwistFacts.

Import transform.

Lemma rem2_shiftr1 (j : Z) :
  0 <= j ->
  (Z.rem j 2 = 0 /\ j = 2 * Z.shiftr j 1) \/
  (Z.rem j 2 = 1 /\ j = 2 * Z.shiftr j 1 + 1).
Proof.
  intros Hj. rewrite Z.rem_mod_nonneg by lia.
  rewrite Z.shiftr_div_pow2 by lia. change (2 ^ 1) with 2.
  pose proof (Z.div_mod j 2 ltac:(lia)) as Hd.
  pose proof (Z.mod_pos_bound j 2 ltac:(lia)) as Hb.
  destruct (decide (j mod 2 = 0)) as [E|E]; [left|right]; lia.
Qed.

Lemma twist_source2_even (H k : Z) :
  0 <= k -> twist_source2 H (2 * k, 0) = H - k.
Proof.
  intros Hk. unfold twist_source2. cbn [fst].
  destruct (rem2_shiftr1 (2 * k)) as [[-> E]|[_ E]]; lia.
Qed.

Lemma twist_source2_odd (H k : Z) :
  0 <= k -> twist_source2 H (2 * k + 1, 0) = 2 * H - k.
Proof.
  intros Hk. unfold twist_source2. cbn [fst].
  destruct (rem2_shiftr1 (2 * k + 1)) as [[_ E]|[-> E]]; lia.
Qed.

Lemma twist_source2_row (H : Z) (c : Z * Z) :
  twist_source2 H c = twist_source2 H (c.1, 0).
Proof. reflexivity. Qed.

Lemma twist_source1_step (H j : Z) :
  0 < j -> twist_source1 H (j, 0) = twist_source2 H (j - 1, 0).
Proof.
  intros Hj. unfold twist_source1, twist_source2. cbn [fst].
  destruct (Z.eqb_spec j 0); [lia|done].
Qed.

Lemma twist_source2_range (H j : Z) :
  0 <= H -> 0 <= j < 2 * H + 1 -> 0 <= twist_source2 H (j, 0) < 2 * H + 1.
Proof.
  intros HH Hj. destruct (rem2_shiftr1 j ltac:(lia)) as [[_ E]|[_ E]]; rewrite E.
  - rewrite twist_source2_even by lia. lia.
  - rewrite twist_source2_odd by lia. lia.
Qed.

(** X1. With [STATE_LENGTH = 2 * HALF_LENGTH + 1], the two texels that
    [twist] reads for a column [j] of the state lie in the state; the first
    one is column 0 for [j = 0] and otherwise the second one of column
    [j - 1]. *)
Theorem twist_sources_in_state (HALF_LENGTH STATE_LENGTH : Z) (my_coord : Z * Z) :
  STATE_LENGTH = 2 * HALF_LENGTH + 1 ->
  0 <= my_coord.1 < STATE_LENGTH ->
  0 <= twist_source1 HALF_LENGTH my_coord < STATE_LENGTH /\
  0 <= twist_source2 HALF_LENGTH my_coord < STATE_LENGTH /\
  (my_coord.1 = 0 -> twist_source1 HALF_LENGTH my_coord = 0) /\
  (0 < my_coord.1 ->
   twist_source1 HALF_LENGTH my_coord
     = twist_source2 HALF_LENGTH (my_coord.1 - 1, my_coord.2)).
Proof.
  intros -> Hj. destruct my_coord as [j y]. cbn [fst snd] in *.
  assert (0 <= HALF_LENGTH) as HH by lia.
  change (twist_source2 HALF_LENGTH (j, y)) with (twist_source2 HALF_LENGTH (j, 0)).
  change (twist_source2 HALF_LENGTH (j - 1, y))
    with (twist_source2 HALF_LENGTH (j - 1, 0)).
  change (twist_source1 HALF_LENGTH (j, y)) with (twist_source1 HALF_LENGTH (j, 0)).
  split; [|split; [|split]].
  - destruct (decide (j = 0)) as [->|Hne].
    + unfold twist_source1. cbn. lia.
    + rewrite twist_source1_step by lia. apply twist_source2_range; lia.
  - apply twist_source2_range; lia.
  - intros ->. reflexivity.
  - intros Hpos. by apply twist_source1_step.
Qed.

Lemma twist_sources_in_state_witness :
  0 <= twist_source1 364 (5, 0) < 729 /\
  0 <= twist_source2 364 (5, 0) < 729 /\
  (5 = 0 -> twist_source1 364 (5, 0) = 0) /\
  (0 < 5 -> twist_source1 364 (5, 0) = twist_source2 364 (5 - 1, 0)).
Proof.
  apply (twist_sources_in_state 364 729 (5, 0)).
  - reflexivity.
  - cbn. lia.
Defined.

(** X2. With [STATE_LENGTH = 2 * HALF_LENGTH + 1], every column of the state
    is the second source of exactly one column of the state: the second
    source is a one-to-one map of the state onto itself. *)
Theorem twist_source2_permutes (HALF_LENGTH STATE_LENGTH : Z) :
  STATE_LENGTH = 2 * HALF_LENGTH + 1 -> 0 <= HALF_LENGTH ->
  (forall j j' y y',
     0 <= j < STATE_LENGTH -> 0 <= j' < STATE_LENGTH ->
     twist_source2 HALF_LENGTH (j, y) = twist_source2 HALF_LENGTH (j', y') ->
     j = j') /\
  (forall k, 0 <= k < STATE_LENGTH ->
     exists j, 0 <= j < STATE_LENGTH /\
       forall y, twist_source2 HALF_LENGTH (j, y) = k).
Proof.
  intros -> HH. split.
  - intros j j' y y' Hj Hj'.
    change (twist_source2 HALF_LENGTH (j, y)) with (twist_source2 HALF_LENGTH (j, 0)).
    change (twist_source2 HALF_LENGTH (j', y')) with (twist_source2 HALF_LENGTH (j', 0)).
    destruct (rem2_shiftr1 j ltac:(lia)) as [[_ E]|[_ E]];
      destruct (rem2_shiftr1 j' ltac:(lia)) as [[_ E']|[_ E']];
      rewrite E, E';
      rewrite ?twist_source2_even, ?twist_source2_odd by lia; lia.
  - intros k Hk. destruct (decide (k <= HALF_LENGTH)) as [Hle|Hgt].
    + exists (2 * (HALF_LENGTH - k)). split; [lia|]. intros y.
      change (twist_source2 HALF_LENGTH (2 * (HALF_LENGTH - k), y))
        with (twist_source2 HALF_LENGTH (2 * (HALF_LENGTH - k), 0)).
      rewrite twist_source2_even by lia. lia.
    + exists (2 * (2 * HALF_LENGTH - k) + 1). split; [lia|]. intros y.
      change (twist_source2 HALF_LENGTH (2 * (2 * HALF_LENGTH - k) + 1, y))
        with (twist_source2 HALF_LENGTH (2 * (2 * HALF_LENGTH - k) + 1, 0)).
      rewrite twist_source2_odd by lia. lia.
Qed.

Lemma twist_source2_permutes_witness :
  (forall j j' y y',
     0 <= j < 729 -> 0 <= j' < 729 ->
     twist_source2 364 (j, y) = twist_source2 364 (j', y') -> j = j') /\
  (forall k, 0 <= k < 729 ->
     exists j, 0 <= j < 729 /\ forall y, twist_source2 364 (j, y) = k).
Proof.
  apply (twist_source2_permutes 364 729).
  - reflexivity.
  - lia.
Defined.

Lemma lane_bit_lnot w lane : lane_bit (Z.lnot w) lane = negb (lane_bit w lane).
Proof. unfold lane_bit. apply Z.lnot_spec. lia. Qed.

Lemma lane_bit_lor w w' lane :
  lane_bit (Z.lor w w') lane = lane_bit w lane || lane_bit w' lane.
Proof. unfold lane_bit. apply Z.lor_spec. Qed.

Lemma lane_bit_land w w' lane :
  lane_bit (Z.land w w') lane = lane_bit w lane && lane_bit w' lane.
Proof. unfold lane_bit. apply Z.land_spec. Qed.

Lemma lane_bit_lxor w w' lane :
  lane_bit (Z.lxor w w') lane = xorb (lane_bit w lane) (lane_bit w' lane).
Proof. unfold lane_bit. apply Z.lxor_spec. Qed.

Lemma twist_lane_bits (H : Z) (read_at : Z * Z -> ivec4) (my_coord : Z * Z) lane :
  let v1 := read_at (twist_source1 H my_coord, my_coord.2) in
  let v2 := read_at (twist_source2 H my_coord, my_coord.2) in
  let delta := (lane_bit (b v1) lane || negb (lane_bit (a v2) lane))
               && xorb (lane_bit (b v2) lane) (lane_bit (a v1) lane) in
  lane_bit (twist H read_at my_coord).1 lane = negb delta /\
  lane_bit (twist H read_at my_coord).2 lane
    = xorb (lane_bit (b v1) lane) (lane_bit (a v2) lane) || delta.
Proof.
  intros v1 v2 delta. unfold twist. cbn [fst snd]. fold v1 v2.
  repeat first [ rewrite lane_bit_lnot | rewrite lane_bit_lor
               | rewrite lane_bit_land | rewrite lane_bit_lxor ].
  split; reflexivity.
Qed.

(** X3. What [main] of the twist kernel commits: the channels r and g of
    the texel are never changed; a texel beyond the state (the column of the
    sentinel) is not changed at all; and a texel of the state never gets
    the invalid pattern (0,0) in any lane of its channels (b, a), whatever
    the texels read held. *)
Theorem twist_main_commit (HALF_LENGTH STATE_LENGTH : Z)
    (read_at : Z * Z -> ivec4) (my_coord : Z * Z) (my_vec : ivec4) :
  let out := main HALF_LENGTH STATE_LENGTH read_at my_coord my_vec in
  r out = r my_vec /\ g out = g my_vec /\
  (STATE_LENGTH <= my_coord.1 -> out = my_vec) /\
  (my_coord.1 < STATE_LENGTH ->
   forall lane, (lane_bit (b out) lane, lane_bit (a out) lane) <> (false, false)).
Proof.
  unfold main. destruct (Z.ltb_spec my_coord.1 STATE_LENGTH) as [Hlt|Hge];
    cbn [r g b a]; repeat split; try done; try lia.
  intros _ lane.
  destruct (twist_lane_bits HALF_LENGTH read_at my_coord lane) as [-> ->].
  repeat match goal with |- context [lane_bit ?w lane] =>
    destruct (lane_bit w lane) end; cbn; congruence.
Qed.

Lemma twist_main_commit_witness :
  let read_at := fun c : Z * Z => {| r := 0; g := 0; b := c.1; a := 0 |} in
  let my_vec := {| r := 7; g := 8; b := 0; a := 0 |} in
  main 364 729 read_at (729, 0) my_vec = my_vec /\
  forall lane,
    (lane_bit (b (main 364 729 read_at (3, 0) my_vec)) lane,
     lane_bit (a (main 364 729 read_at (3, 0) my_vec)) lane) <> (false, false).
Proof.
  intros read_at my_vec. split.
  - apply (proj1 (proj2 (proj2 (twist_main_commit 364 729 read_at (729, 0) my_vec)))).
    cbn. lia.
  - apply (proj2 (proj2 (proj2 (twist_main_commit 364 729 read_at (3, 0) my_vec)))).
    cbn. lia.
Defined.

Lemma encoded_lane_cases t lane :
  is_trit t ->
  (t = -1 /\ encoded_lane t lane = (true, false)) \/
  (t = 0 /\ encoded_lane t lane = (true, true)) \/
  (t = 1 /\ encoded_lane t lane = (false, true)).
Proof.
  intros Ht. pose proof (cell_bits_enc t lane Ht) as Hc. unfold encoded_lane.
  destruct Ht as [->|[->| ->]]; injection Hc as -> ->; auto.
Qed.

(** X4. In every lane, [twist] computes the truth table of the sponge on
    the encoding of [searchToPair]: if in that lane the two texels read
    hold the encodings of the trits [t1] and [t2] in their channels (b, a),
    the result holds the encoding of [TRUTH_TABLE[t1 + (t2 << 2) + 5]],
    which is again a trit. *)
Theorem twist_lane_truth_table (HALF_LENGTH : Z) (read_at : Z * Z -> ivec4)
    (my_coord : Z * Z) (lane : nat) (t1 t2 : Z) :
  let v1 := read_at (twist_source1 HALF_LENGTH my_coord, my_coord.2) in
  let v2 := read_at (twist_source2 HALF_LENGTH my_coord, my_coord.2) in
  is_trit t1 -> is_trit t2 ->
  (lane_bit (b v1) lane, lane_bit (a v1) lane) = encoded_lane t1 lane ->
  (lane_bit (b v2) lane, lane_bit (a v2) lane) = encoded_lane t2 lane ->
  is_trit (CurlTable.entry t1 t2) /\
  (lane_bit (twist HALF_LENGTH read_at my_coord).1 lane,
   lane_bit (twist HALF_LENGTH read_at my_coord).2 lane)
    = encoded_lane (CurlTable.entry t1 t2) lane.
Proof.
  intros v1 v2 Ht1 Ht2 H1 H2.
  destruct (twist_lane_bits HALF_LENGTH read_at my_coord lane) as [-> ->].
  fold v1 v2.
  destruct (encoded_lane_cases t1 lane Ht1) as [[-> E1]|[[-> E1]|[-> E1]]];
    destruct (encoded_lane_cases t2 lane Ht2) as [[-> E2]|[[-> E2]|[-> E2]]];
    rewrite E1 in H1; rewrite E2 in H2;
    injection H1 as -> ->; injection H2 as -> ->;
    (split; [unfold is_trit; vm_compute; tauto|]);
    [ change (CurlTable.entry (-1) (-1)) with 1
    | change (CurlTable.entry (-1) 0) with 1
    | change (CurlTable.entry (-1) 1) with (-1)
    | change (CurlTable.entry 0 (-1)) with 0
    | change (CurlTable.entry 0 0) with (-1)
    | change (CurlTable.entry 0 1) with 1
    | change (CurlTable.entry 1 (-1)) with (-1)
    | change (CurlTable.entry 1 0) with 0
    | change (CurlTable.entry 1 1) with 0 ];
    match goal with |- _ = encoded_lane ?t lane =>
      destruct (encoded_lane_cases t lane) as [[? ->]|[[? ->]|[? ->]]];
        try (unfold is_trit; lia); try discriminate; reflexivity
    end.
Qed.

Lemma twist_lane_truth_table_witness :
  let read_at := fun c : Z * Z =>
    if c.1 =? 0 then {| r := 0; g := 0; b := -1; a := -1 |}
    else {| r := 0; g := 0; b := 0; a := -1 |} in
  is_trit (CurlTable.entry 0 1) /\
  (lane_bit (twist 364 read_at (0, 0)).1 9,
   lane_bit (twist 364 read_at (0, 0)).2 9)
    = encoded_lane (CurlTable.entry 0 1) 9.
Proof.
  intros read_at.
  apply (twist_lane_truth_table 364 read_at (0, 0) 9%nat 0 1).
  - right; left; reflexivity.
  - right; right; reflexivity.
  - reflexivity.
  - reflexivity.
Defined.

End TwistFacts.

(** ** The encoder: bounds and shape *)

Section CodecBounds.

Lemma toInt32_range (z : Z) : - 2 ^ 31 <= toInt32 z < 2 ^ 31.
Proof.
  unfold toInt32.
  pose proof (Z.mod_pos_bound (z + 2 ^ 31) (2 ^ 32) ltac:(lia)). lia.
Qed.

Lemma toInt32_id (z : Z) : - 2 ^ 31 <= z < 2 ^ 31 -> toInt32 z = z.
Proof.
  intros Hz. unfold toInt32. rewrite Z.mod_small by lia. lia.
Qed.

Lemma Forall_store (P : Z -> Prop) (l : list Z) (i : nat) (v : Z) :
  Forall P l -> P (toInt32 v) -> Forall P (store l i v).
Proof. intros Hl Hv. unfold store. by apply Forall_insert. Qed.

Lemma forEach_from_app {A St : Type} (f : A -> nat -> St -> St) (l1 l2 : list A) :
  forall k s,
  forEach_from f k (l1 ++ l2) s
    = forEach_from f (k + length l1) l2 (forEach_from f k l1 s).
Proof.
  induction l1 as [|x l1 IH]; intros k s; simpl.
  - by rewrite Nat.add_0_r.
  - rewrite IH. f_equal. lia.
Qed.

Lemma store_beyond (l : list Z) (i : nat) (v : Z) :
  (length l <= i)%nat -> store l i v = l.
Proof. intros Hi. unfold store. by apply list_insert_ge. Qed.

(** Past the end of both halves the loop of [searchToPair] stores
    nothing. *)
Lemma forEach_from_beyond (state : list Z) :
  forall k states,
  (length (low states) <= k)%nat -> (length (high states) <= k)%nat ->
  forEach_from encode_trit k state states = states.
Proof.
  induction state as [|t state IH]; intros k states Hl Hh; simpl; [done|].
  assert (encode_trit t k states = states) as ->.
  { unfold encode_trit. destruct states as [ls hs]. cbn [low high] in *.
    repeat case_match; by rewrite !store_beyond by lia. }
  apply IH; lia.
Qed.

Lemma forEach_from_words (state : list Z) :
  forall k states,
  Forall (fun w => - 2 ^ 31 <= w < 2 ^ 31) (low states) ->
  Forall (fun w => - 2 ^ 31 <= w < 2 ^ 31) (high states) ->
  Forall (fun w => - 2 ^ 31 <= w < 2 ^ 31)
    (low (forEach_from encode_trit k state states)) /\
  Forall (fun w => - 2 ^ 31 <= w < 2 ^ 31)
    (high (forEach_from encode_trit k state states)).
Proof.
  induction state as [|t state IH]; intros k states Hl Hh; simpl; [done|].
  apply IH.
  - rewrite encode_trit_low. apply Forall_store; [done|apply toInt32_range].
  - rewrite encode_trit_high. apply Forall_store; [done|apply toInt32_range].
Qed.

Lemma encode_trit_default_case (t : Z) (index : nat) states :
  encode_trit (default_case t) index states = encode_trit t index states.
Proof.
  unfold encode_trit, default_case.
  destruct (Z.eqb_spec t 0) as [->|H0]; [done|].
  destruct (Z.eqb_spec t 1) as [->|H1]; done.
Qed.

(** X5. Whatever the input, [searchToPair] returns two halves of exactly
    [Curl.STATE_LENGTH] words, each within the range of a signed 32-bit
    integer. *)
Theorem searchToPair_shape (state : list Z) :
  length (low (searchToPair state)) = Curl.STATE_LENGTH /\
  length (high (searchToPair state)) = Curl.STATE_LENGTH /\
  Forall (fun w => - 2 ^ 31 <= w < 2 ^ 31) (low (searchToPair state)) /\
  Forall (fun w => - 2 ^ 31 <= w < 2 ^ 31) (high (searchToPair state)).
Proof.
  destruct (searchToPair_length state) as [Hl Hh].
  split; [exact Hl|]. split; [exact Hh|].
  unfold searchToPair, forEach, searchOffset. cbn [low high].
  destruct (forEach_from_words state 0
    {| low := new_Int32Array Curl.STATE_LENGTH;
       high := new_Int32Array Curl.STATE_LENGTH |}) as [Hwl Hwh].
  - cbn [low]. unfold new_Int32Array. apply Forall_replicate. lia.
  - cbn [high]. unfold new_Int32Array. apply Forall_replicate. lia.
  - split; repeat apply Forall_store; try apply toInt32_range; assumption.
Qed.

(** X6. [searchToPair] reads at most [Curl.STATE_LENGTH] trits: whatever
    follows them in the input is ignored. Where the input is shorter than
    the state, the cells it does not reach keep the zeros of a new
    [Int32Array] on both halves, which is the invalid pattern (0,0) in every
    lane, except in the four seed cells. *)
Theorem searchToPair_input_length (state : list Z) :
  (forall extra, (Curl.STATE_LENGTH <= length state)%nat ->
     searchToPair (state ++ extra) = searchToPair state) /\
  (forall i, (length state <= i < Curl.STATE_LENGTH)%nat -> ~ seed_cell i ->
     low (searchToPair state) !! i = Some 0 /\
     high (searchToPair state) !! i = Some 0 /\
     forall lane, cell_bits (searchToPair state) i lane = Some (false, false)).
Proof.
  split.
  - intros extra Hlen. unfold searchToPair, forEach. f_equal.
    rewrite forEach_from_app. apply forEach_from_beyond.
    + destruct (forEach_from_length state 0
        {| low := new_Int32Array Curl.STATE_LENGTH;
           high := new_Int32Array Curl.STATE_LENGTH |}) as [-> _].
      cbn [low]. rewrite length_new_Int32Array. lia.
    + destruct (forEach_from_length state 0
        {| low := new_Int32Array Curl.STATE_LENGTH;
           high := new_Int32Array Curl.STATE_LENGTH |}) as [_ ->].
      cbn [high]. rewrite length_new_Int32Array. lia.
  - intros i Hi Hs.
    assert (low (searchToPair state) !! i = Some 0 /\
            high (searchToPair state) !! i = Some 0) as [Hl Hh].
    { unfold searchToPair, forEach.
      match goal with |- context [searchOffset ?s _] =>
        destruct (searchOffset_other s NONCE_START i Hs) as [-> ->]
      end.
      destruct (forEach_from_untouched state 0
        {| low := new_Int32Array Curl.STATE_LENGTH;
           high := new_Int32Array Curl.STATE_LENGTH |} i) as [-> ->]; [lia|].
      cbn [low high]. unfold new_Int32Array.
      by rewrite lookup_replicate_2 by lia. }
    split; [exact Hl|]. split; [exact Hh|].
    intros lane. unfold cell_bits. rewrite Hl, Hh. unfold lane_bit.
    by rewrite Z.bits_0.
Qed.

Lemma searchToPair_input_length_witness :
  searchToPair (replicate Curl.STATE_LENGTH 1 ++ [0; 0])
    = searchToPair (replicate Curl.STATE_LENGTH 1) /\
  low (searchToPair [1; 0]) !! 2%nat = Some 0 /\
  high (searchToPair [1; 0]) !! 2%nat = Some 0 /\
  forall lane, cell_bits (searchToPair [1; 0]) 2 lane = Some (false, false).
Proof.
  split.
  - apply (proj1 (searchToPair_input_length (replicate Curl.STATE_LENGTH 1))).
    rewrite length_replicate. lia.
  - apply (proj2 (searchToPair_input_length [1; 0]) 2%nat).
    + cbn [length]. unfold Curl.STATE_LENGTH. lia.
    + unfold seed_cell, NONCE_START. lia.
Defined.

(** X7. The switch of [searchToPair] has a default case: every number
    other than 0 and 1 is encoded as the trit -1 is. *)
Theorem searchToPair_default_case (state : list Z) :
  searchToPair state = searchToPair (default_case <$> state).
Proof.
  unfold searchToPair, forEach. f_equal.
  generalize 0%nat.
  generalize {| low := new_Int32Array Curl.STATE_LENGTH;
                high := new_Int32Array Curl.STATE_LENGTH |}.
  induction state as [|t state IH]; intros states k; [done|].
  cbn [fmap list_fmap forEach_from]. rewrite encode_trit_default_case. apply IH.
Qed.

End CodecBounds.

(** ** The buffer layout: round trips *)

Section Layout.

Local Open Scope nat_scope.

(** X8. [webGLWriteBuffers] keeps the length of the buffer, writes each of
    the first [Curl.STATE_LENGTH] texels that fit in the buffer as (low,
    high, low, high) of the job's cell, wrapped to 32 bits, and leaves
    everything from word [4 * Curl.STATE_LENGTH] on, the sentinel's texel
    included, as it was. *)
Theorem webGLWriteBuffers_layout (states : PearlDiverSearchStates) (buffer : list Z) :
  length (webGLWriteBuffers states buffer) = length buffer /\
  (forall j, 4 * Curl.STATE_LENGTH <= j ->
     webGLWriteBuffers states buffer !! j = buffer !! j) /\
  (forall i, i < Curl.STATE_LENGTH -> 4 * i + 3 < length buffer ->
     webGLWriteBuffers states buffer !! (4 * i)
       = Some (toInt32 (load (low states) i)) /\
     webGLWriteBuffers states buffer !! (4 * i + 1)
       = Some (toInt32 (load (high states) i)) /\
     webGLWriteBuffers states buffer !! (4 * i + 2)
       = Some (toInt32 (load (low states) i)) /\
     webGLWriteBuffers states buffer !! (4 * i + 3)
       = Some (toInt32 (load (high states) i))).
Proof. exact (write_texels states buffer Curl.STATE_LENGTH). Qed.

Lemma webGLWriteBuffers_layout_witness :
  webGLWriteBuffers (states example_job) (_currentBuffer example_engine) !! 0
    = Some (toInt32 (load (low (states example_job)) 0)) /\
  webGLWriteBuffers (states example_job) (_currentBuffer example_engine) !! 1
    = Some (toInt32 (load (high (states example_job)) 0)) /\
  webGLWriteBuffers (states example_job) (_currentBuffer example_engine) !! 2
    = Some (toInt32 (load (low (states example_job)) 0)) /\
  webGLWriteBuffers (states example_job) (_currentBuffer example_engine) !! 3
    = Some (toInt32 (load (high (states example_job)) 0)).
Proof.
  apply (proj2 (proj2 (webGLWriteBuffers_layout (states example_job)
                         (_currentBuffer example_engine))) 0).
  - unfold Curl.STATE_LENGTH. lia.
  - cbn. lia.
Defined.

(** X9. [saveSearch] undoes the upload: if a job whose halves have
    [Curl.STATE_LENGTH] words within 32 bits is written to a buffer of at
    least [4 * Curl.STATE_LENGTH] words by [webGLWriteBuffers], and nothing
    else touches the buffer, [saveSearch] puts the very same job back at the
    head of the queue. *)
Theorem saveSearch_after_upload (so : PearlDiverSearchObject) (e : PearlDiver) :
  length (low (states so)) = Curl.STATE_LENGTH ->
  length (high (states so)) = Curl.STATE_LENGTH ->
  Forall (fun w => (- 2 ^ 31 <= w < 2 ^ 31)%Z) (low (states so)) ->
  Forall (fun w => (- 2 ^ 31 <= w < 2 ^ 31)%Z) (high (states so)) ->
  4 * Curl.STATE_LENGTH <= length (_currentBuffer e) ->
  let uploaded :=
    set_currentBuffer (webGLWriteBuffers (states so) (_currentBuffer e)) e in
  saveSearch so uploaded = set_queue (so :: _queue e) uploaded.
Proof.
  intros Hl Hh Hwl Hwh Hb uploaded. unfold saveSearch, uploaded.
  cbn [set_currentBuffer _currentBuffer _queue].
  rewrite snapshot_webGLWriteBuffers; try done.
  - by destruct so.
  - eapply Forall_impl; [exact Hwl|]. intros w Hw. by apply toInt32_id.
  - eapply Forall_impl; [exact Hwh|]. intros w Hw. by apply toInt32_id.
Qed.

Lemma saveSearch_after_upload_witness :
  let so := {| states := searchToPair [0; 1; -1]%Z;
               minWeightMagnitude := 14%Z; callback := 1 |} in
  let e := new_PearlDiver (replicate (4 * (Curl.STATE_LENGTH + 1)) 0%Z) in
  let uploaded :=
    set_currentBuffer (webGLWriteBuffers (states so) (_currentBuffer e)) e in
  saveSearch so uploaded = set_queue (so :: _queue e) uploaded.
Proof.
  intros so e.
  destruct (searchToPair_shape [0; 1; -1])%Z as (Hl & Hh & Hwl & Hwh).
  apply (saveSearch_after_upload so e Hl Hh Hwl Hwh).
  unfold e. cbn [new_PearlDiver _currentBuffer]. rewrite length_replicate. lia.
Defined.

(** X10. [reduce(pack(4), [])] cuts an array into consecutive chunks: put
    end to end the chunks give the array back, no chunk is empty, every
    chunk but the last has four elements and the last has at most four. An
    empty array gives no chunk. *)
Theorem pack_chunks (data : list Z) :
  let chunks := reduce (pack 4) data [] in
  concat chunks = data /\
  length chunks = (length data + 3) / 4 /\
  (forall i c, chunks !! i = Some c ->
     0 < length c <= 4 /\ (S i < length chunks -> length c = 4)).
Proof.
  cbn zeta. destruct (pack_texels data) as [Hlen Hlook].
  split; [|split; [exact Hlen|]].
  - clear Hlen Hlook.
    induction data as [|x l IH] using rev_ind; [done|].
    destruct (pack_texels l) as [Hlen _].
    unfold reduce in *. rewrite reduce_from_snoc. cbn [Nat.add].
    set (r := reduce_from (pack 4) 0 l []) in *.
    unfold pack. destruct (Nat.eqb_spec (length l mod 4) 0) as [Hm|Hm].
    + rewrite concat_app, IH. cbn [concat]. by rewrite app_nil_r.
    + destruct (quarter_partial (length l) Hm) as (_ & _ & _ & Hpos).
      destruct r as [|c r'] using rev_ind; [cbn [length] in Hlen; lia|].
      clear IHr'. rewrite length_app. cbn [length].
      replace (length r' + 1 - 1) with (length r' + 0) by lia.
      rewrite alter_app_r. cbn [alter list_alter].
      rewrite concat_app in *. cbn [concat] in *. rewrite app_nil_r in *.
      by rewrite <- IH, !app_assoc.
  - intros i c Hc.
    assert (i < (length data + 3) / 4) as Hi.
    { rewrite <- Hlen. apply lookup_lt_is_Some. eauto. }
    rewrite Hlook in Hc by done. injection Hc as <-.
    rewrite length_take, length_drop, Hlen.
    assert ((length data + 3) / 4 * 4 <= length data + 3) as Hq.
    { rewrite Nat.mul_comm. apply Nat.Div0.mul_div_le. }
    split; [nia|]. intros HS. nia.
Qed.

Lemma pack_chunks_witness :
  0 < length [9; 10]%Z <= 4 /\
  (3 < length (reduce (pack 4) [1; 2; 3; 4; 5; 6; 7; 8; 9; 10]%Z []) ->
   length [9; 10]%Z = 4).
Proof.
  apply (proj2 (proj2 (pack_chunks [1; 2; 3; 4; 5; 6; 7; 8; 9; 10]%Z)) 2).
  reflexivity.
Defined.

(** X11. What [saveSearch] leaves in the job depends on the buffer alone:
    the job's previous halves are discarded, and the new ones have one word
    per texel of the buffer, whole or not, up to [Curl.STATE_LENGTH]; with
    an empty buffer both are empty. *)
Theorem snapshot_shape (buffer : list Z) (states states' : PearlDiverSearchStates) :
  snapshot buffer states = snapshot buffer states' /\
  length (low (snapshot buffer states))
    = Nat.min Curl.STATE_LENGTH ((length buffer + 3) / 4) /\
  length (high (snapshot buffer states))
    = Nat.min Curl.STATE_LENGTH ((length buffer + 3) / 4).
Proof.
  rewrite !snapshot_columns. cbn [low high]. split; [done|].
  destruct (pack_texels buffer) as [Hlen _].
  by rewrite !length_fmap, !length_take, Hlen.
Qed.

End Layout.

(** ** The state machine: compositions *)

Section Compositions.

Context `{!WebGLWorker}.

Lemma sentinel_history so e :
  sentinel so e = readData_result (_webGLWorker e ++ round_calls so) !! 2%nat.
Proof.
  unfold sentinel. by destruct (run_round_fields so e) as (_ & _ & _ & _ & _ & ->).
Qed.

Lemma after_match_fields so e :
  _state (after_match so e) = _state e /\
  _queue (after_match so e) = _queue e /\
  timers (after_match so e) = timers e /\
  _offset (after_match so e) = _offset e /\
  (exists result,
     resolved (after_match so e) = resolved e ++ [(callback so, result)]) /\
  _webGLWorker (after_match so e)
    = _webGLWorker e ++ round_calls so ++ match_calls.
Proof.
  destruct (run_round_fields so e) as (Hst & Hq & Ht & Hr & Ho & Hw).
  unfold after_match, match_calls.
  cbn [invoke_callback worker_call _state _queue timers _offset resolved
       _webGLWorker].
  rewrite Hst, Hq, Ht, Hr, Ho, Hw. repeat split; try done.
  - eexists. reflexivity.
  - by rewrite <- !app_assoc.
Qed.

Lemma webGLSearch_match so e :
  sentinel so e <> Some (-1) ->
  webGLSearch so e = searchDoNext (after_match so e).
Proof.
  intros Hs. unfold webGLSearch, sentinel in *.
  destruct (decide (readData_result (_webGLWorker (run_round so e)) !! 2%nat
                    = Some (-1))); [done|reflexivity].
Qed.

Lemma webGLSearch_no_match so e :
  sentinel so e = Some (-1) ->
  webGLSearch so e
    = if decide (_state e = interrupted)
      then (Normal, saveSearch so (run_round so e))
      else (Normal, setTimeout so (run_round so e)).
Proof.
  intros Hs. unfold webGLSearch, sentinel in *.
  destruct (run_round_fields so e) as (Hst & _).
  destruct (decide (readData_result (_webGLWorker (run_round so e)) !! 2%nat
                    = Some (-1))); [|done].
  rewrite Hst. reflexivity.
Qed.

Lemma remove_snoc q job e :
  _queue e = q ++ [job] -> remove e = set_queue q e.
Proof.
  intros Hq. unfold remove. rewrite Hq, length_app. cbn [length].
  replace (length q + 1 - 1)%nat with (length q) by lia.
  by rewrite take_app_length.
Qed.

Lemma search_valid_minWeight (minWeight : Z) :
  0 < minWeight < Z.of_nat Curl.HASH_LENGTH ->
  ((minWeight >=? Z.of_nat Curl.HASH_LENGTH) || (minWeight <=? 0)) = false.
Proof. intros Hmw. apply orb_false_iff. lia. Qed.

Lemma search_not_ready sts minWeight resolve e :
  0 < minWeight < Z.of_nat Curl.HASH_LENGTH -> _state e <> ready ->
  search sts minWeight resolve e
    = (Pending,
       set_queue (_queue e ++ [ {| states := sts; minWeightMagnitude := minWeight;
                                   callback := resolve |} ]) e).
Proof.
  intros Hmw Hs. unfold search. rewrite (search_valid_minWeight _ Hmw).
  destruct (decide (_state (set_queue _ e) = ready)) as [Hr|_]; [by destruct Hs|done].
Qed.

Lemma search_ready sts minWeight resolve e :
  0 < minWeight < Z.of_nat Curl.HASH_LENGTH -> _state e = ready ->
  exists hd rest e',
    _queue e ++ [ {| states := sts; minWeightMagnitude := minWeight;
                     callback := resolve |} ] = hd :: rest /\
    search sts minWeight resolve e = (Pending, e') /\
    _state e' = searching /\ _queue e' = rest /\
    timers e' = timers e ++ [hd] /\ resolved e' = resolved e /\
    _offset e' = _offset e /\
    _webGLWorker e' = _webGLWorker e ++
      [ writeData (webGLWriteBuffers (states hd) (_currentBuffer e));
        runProgram "init" 1 (Some ("gr_offset", _offset e)) ].
Proof.
  intros Hmw Hr. unfold search. rewrite (search_valid_minWeight _ Hmw).
  set (job := {| states := sts; minWeightMagnitude := minWeight;
                 callback := resolve |}).
  destruct (decide (_state (set_queue (_queue e ++ [job]) e) = ready)) as [_|Hn];
    [|by destruct Hn].
  destruct (_queue e ++ [job]) as [|hd rest] eqn:Hq.
  { by destruct (_queue e). }
  destruct (searchDoNext_dispatch (set_queue (hd :: rest) e) hd rest)
    as (e' & -> & ? & ? & ? & ? & ? & ?); [cbn; congruence|done|].
  exists hd, rest, e'. by repeat split.
Qed.

(** X12. [remove] drops the job queued last and nothing else: it makes no
    call on the worker and leaves the state, the timers and the job that is
    running alone. On an empty queue it does nothing. A [search] that only
    queued its job, because the engine was not [ready], is undone by it. *)
Theorem remove_drops_last (e : PearlDiver) :
  (_queue e = [] -> remove e = e) /\
  (forall q job, _queue e = q ++ [job] -> _queue (remove e) = q) /\
  _state (remove e) = _state e /\ timers (remove e) = timers e /\
  _webGLWorker (remove e) = _webGLWorker e /\
  _currentBuffer (remove e) = _currentBuffer e /\
  resolved (remove e) = resolved e /\
  (forall sts minWeight resolve,
     0 < minWeight < Z.of_nat Curl.HASH_LENGTH -> _state e <> ready ->
     remove (search sts minWeight resolve e).2 = e).
Proof.
  split; [|split; [|repeat split]].
  - intros Hq. unfold remove. rewrite Hq. destruct e; cbn in *; by subst.
  - intros q job Hq. by rewrite (remove_snoc q job e Hq).
  - intros sts minWeight resolve Hmw Hs.
    rewrite (search_not_ready sts minWeight resolve e Hmw Hs). cbn [snd].
    erewrite remove_snoc; [|reflexivity]. by destruct e.
Qed.

(** X13. The offset set by [setOffset] is the [gr_offset] that [init] gets
    for the next job started; setting it makes no call on the worker and
    changes nothing else, so a job that is already running keeps the offset
    it was started with. *)
Theorem setOffset_next_job (offset : Z) (e : PearlDiver) :
  _webGLWorker (setOffset offset e) = _webGLWorker e /\
  _queue (setOffset offset e) = _queue e /\
  _state (setOffset offset e) = _state e /\
  timers (setOffset offset e) = timers e /\
  _currentBuffer (setOffset offset e) = _currentBuffer e /\
  (forall next rest, _state e <> searching -> _queue e = next :: rest ->
   exists e', searchDoNext (setOffset offset e) = (Normal, e') /\
     new_calls e e'
       = [ writeData (webGLWriteBuffers (states next) (_currentBuffer e));
           runProgram "init" 1 (Some ("gr_offset", offset)) ]).
Proof.
  repeat split. intros next rest Hs Hq.
  destruct (searchDoNext_dispatch (setOffset offset e) next rest Hs Hq)
    as (e' & He & _ & _ & _ & _ & _ & Hw).
  exists e'. split; [exact He|]. by apply new_calls_app.
Qed.

(** X14. A match found while the engine is [searching]: [finalize] is run,
    the row is read back, the job's callback is invoked once, and the
    engine goes back to [ready]. The job at the head of the queue, if any,
    is taken off the queue and not started: nothing is uploaded for it, no
    round is scheduled, and its callback is not invoked. *)
Theorem webGLSearch_match_while_searching (so : PearlDiverSearchObject)
    (e : PearlDiver) :
  _state e = searching -> sentinel so e <> Some (-1) ->
  exists e' result,
    webGLSearch so e = (Normal, e') /\
    _state e' = ready /\
    _queue e' = tail (_queue e) /\
    timers e' = timers e /\
    resolved e' = resolved e ++ [(callback so, result)] /\
    new_calls e e' = round_calls so ++ match_calls.
Proof.
  intros Hst Hs. rewrite (webGLSearch_match so e Hs).
  destruct (after_match_fields so e) as (Ms & Mq & Mt & Mo & [result Mr] & Mw).
  rewrite (searchDoNext_searching (after_match so e)) by congruence.
  eexists _, result. split; [reflexivity|].
  cbn [set_state set_queue _state _queue timers resolved].
  repeat split; try congruence.
  by apply new_calls_app.
Qed.

(** X15. A match found after [interrupt]: the callback is invoked, and
    [searchDoNext], finding the engine [interrupted], sets it [searching]
    again. With a job waiting, that job is started and the interruption is
    forgotten; with the queue empty, the round ends in a [TypeError] and
    the engine is left [searching] with no round scheduled. *)
Theorem webGLSearch_match_while_interrupted (so : PearlDiverSearchObject)
    (e : PearlDiver) :
  _state e = interrupted -> sentinel so e <> Some (-1) ->
  (_queue e = [] ->
   exists e' result,
     webGLSearch so e = (TypeError, e') /\
     _state e' = searching /\ _queue e' = [] /\ timers e' = timers e /\
     resolved e' = resolved e ++ [(callback so, result)] /\
     new_calls e e' = round_calls so ++ match_calls) /\
  (forall next rest, _queue e = next :: rest ->
   exists e' result,
     webGLSearch so e = (Normal, e') /\
     _state e' = searching /\ _queue e' = rest /\
     timers e' = timers e ++ [next] /\
     resolved e' = resolved e ++ [(callback so, result)]).
Proof.
  intros Hst Hs. rewrite (webGLSearch_match so e Hs).
  destruct (after_match_fields so e) as (Ms & Mq & Mt & Mo & [result Mr] & Mw).
  split.
  - intros Hq.
    rewrite (searchDoNext_empty (after_match so e)) by congruence.
    eexists _, result. split; [reflexivity|].
    cbn [set_state _state _queue timers resolved].
    repeat split; try congruence. by apply new_calls_app.
  - intros next rest Hq.
    destruct (searchDoNext_dispatch (after_match so e) next rest)
      as (e' & -> & ? & ? & ? & ? & ? & ?); [congruence|congruence|].
    exists e', result. repeat split; congruence.
Qed.

(** X16. [resume] called right after [interrupt], before the round loop has
    polled: the engine is [searching] again, so the running job will not be
    saved at its next poll; and the job at the head of the queue is started
    beside it, its round scheduled after the pending ones. With an empty
    queue the call ends in a [TypeError] and the engine is [searching]. *)
Theorem resume_right_after_interrupt (e : PearlDiver) :
  _state e = searching ->
  (_queue e = [] ->
   resume (interrupt e) = (TypeError, e)) /\
  (forall next rest, _queue e = next :: rest ->
   exists e', resume (interrupt e) = (Normal, e') /\
     _state e' = searching /\ _queue e' = rest /\
     timers e' = timers e ++ [next] /\
     new_calls e e'
       = [ writeData (webGLWriteBuffers (states next) (_currentBuffer e));
           runProgram "init" 1 (Some ("gr_offset", _offset e)) ]).
Proof.
  intros Hst. unfold resume, interrupt.
  destruct (decide (_state e = searching)) as [_|Hn]; [|by destruct Hn].
  split.
  - intros Hq. rewrite (searchDoNext_empty (set_state interrupted e)); [|done|done].
    destruct e; cbn in *; by subst.
  - intros next rest Hq.
    destruct (searchDoNext_dispatch (set_state interrupted e) next rest)
      as (e' & -> & ? & ? & ? & ? & ? & Hw); [done|done|].
    exists e'. repeat split; try done. by apply new_calls_app.
Qed.

(** X17. Interrupt and resume: when an [interrupted] engine polls "no
    match" the job is parked at the head of the queue, and a [resume] then
    takes that same job (same callback, same difficulty, the states of the
    snapshot) off the queue again, uploads it, runs [init] and schedules its
    round; the queue behind it is as it was. *)
Theorem resume_after_saveSearch (so : PearlDiverSearchObject) (e : PearlDiver) :
  _state e = interrupted -> sentinel so e = Some (-1) ->
  let e5 := run_round so e in
  let so' := {| states := snapshot (_currentBuffer e5) (states so);
                minWeightMagnitude := minWeightMagnitude so;
                callback := callback so |} in
  exists e'',
    resume (webGLSearch so e).2 = (Normal, e'') /\
    _state e'' = searching /\
    _queue e'' = _queue e /\
    timers e'' = timers e ++ [so'] /\
    resolved e'' = resolved e /\
    new_calls e e''
      = round_calls so ++
        [ writeData (webGLWriteBuffers (states so') (_currentBuffer e5));
          runProgram "init" 1 (Some ("gr_offset", _offset e)) ].
Proof.
  intros Hst Hs e5 so'.
  rewrite (webGLSearch_no_match so e Hs).
  destruct (decide (_state e = interrupted)) as [_|Hn]; [|by destruct Hn].
  cbn [snd]. unfold resume, saveSearch. fold e5. fold so'.
  destruct (run_round_fields so e) as (Rs & Rq & Rt & Rr & Ro & Rw).
  fold e5 in Rs, Rq, Rt, Rr, Ro, Rw.
  destruct (searchDoNext_dispatch (set_queue (so' :: _queue e5) e5) so' (_queue e5))
    as (e'' & -> & ? & ? & ? & ? & ? & Hw); [cbn; congruence|done|].
  cbn [set_queue _webGLWorker _currentBuffer _offset timers resolved] in *.
  exists e''. repeat split; try congruence.
  apply new_calls_app. rewrite Hw, Rw, Ro, <- app_assoc. done.
Qed.


End Compositions.

(** ** Runs of the engine: facts *)

Section Runs.

Context `{!WebGLWorker}.

Lemma after_match_resolved so e :
  resolved (after_match so e)
    = resolved e ++
      [(callback so,
        Trits_fromValue_toTrytes
          ((fun x : list Z => x !! 3%nat) <$>
             take Curl.HASH_LENGTH
               (reduce (pack 4)
                  (readData_result (_webGLWorker e ++ round_calls so ++ match_calls))
                  [])))].
Proof.
  destruct (run_round_fields so e) as (_ & _ & _ & Hr & _ & Hw).
  unfold after_match, match_calls.
  cbn [invoke_callback worker_call resolved _webGLWorker].
  rewrite Hr, Hw, <- !app_assoc. reflexivity.
Qed.

(** X19. The nonce handed to the callback on a match is read from the row
    the worker returns after [finalize]: one element per texel of the row,
    at most [Curl.HASH_LENGTH] of them, each the fourth channel of its
    texel. *)
Theorem webGLSearch_nonce (so : PearlDiverSearchObject) (e : PearlDiver) :
  sentinel so e <> Some (-1) ->
  let data := readData_result (_webGLWorker e ++ round_calls so ++ match_calls) in
  exists nonce,
    resolved (webGLSearch so e).2
      = resolved e ++ [(callback so, Trits_fromValue_toTrytes nonce)] /\
    length nonce = Nat.min Curl.HASH_LENGTH ((length data + 3) / 4) /\
    (forall i, (i < Curl.HASH_LENGTH)%nat -> (4 * i + 3 < length data)%nat ->
       nonce !! i = Some (data !! (4 * i + 3)%nat)).
Proof.
  intros Hs data. rewrite (webGLSearch_match so e Hs).
  destruct (searchDoNext_history (after_match so e)) as [_ ->].
  rewrite after_match_resolved. fold data.
  eexists. split; [reflexivity|].
  destruct (pack_texels data) as [Hlen Hlook]. split.
  - by rewrite length_fmap, length_take, Hlen.
  - intros i Hi Hd.
    assert (i < (length data + 3) / 4)%nat as Hq
      by (apply Nat.div_le_lower_bound; lia).
    rewrite list_lookup_fmap, lookup_take_lt, Hlook by done.
    cbn [fmap option_fmap option_map].
    by rewrite lookup_take_lt, lookup_drop by lia.
Qed.

(** X20. From an idle engine to a result: on an engine that is [ready] with
    nothing queued or scheduled, a [search] with a valid difficulty starts
    the job at once, and if its first round reads a match the engine is
    [ready] again with nothing queued or scheduled, and the promise's
    resolve function has been invoked, once. *)
Theorem search_then_match (sts : PearlDiverSearchStates) (minWeight : Z)
    (resolve : nat) (e : PearlDiver) :
  0 < minWeight < Z.of_nat Curl.HASH_LENGTH ->
  _state e = ready -> _queue e = [] -> timers e = [] ->
  let job := {| states := sts; minWeightMagnitude := minWeight;
                callback := resolve |} in
  readData_result
    (_webGLWorker e ++
     [ writeData (webGLWriteBuffers sts (_currentBuffer e));
       runProgram "init" 1 (Some ("gr_offset", _offset e)) ] ++
     round_calls job) !! 2%nat <> Some (-1) ->
  exists e1 e2 result,
    search sts minWeight resolve e = (Pending, e1) /\
    timers e1 = [job] /\ _state e1 = searching /\
    run_timer e1 = (Normal, e2) /\
    _state e2 = ready /\ _queue e2 = [] /\ timers e2 = [] /\
    resolved e2 = resolved e ++ [(resolve, result)].
Proof.
  intros Hmw Hst Hq Ht job Hread.
  destruct (search_ready sts minWeight resolve e Hmw Hst)
    as (hd & rest & e1 & Hhd & Hsearch & Hs1 & Hq1 & Ht1 & Hr1 & Ho1 & Hw1).
  rewrite Hq in Hhd. cbn [app] in Hhd. injection Hhd as <- <-.
  rewrite Ht in Ht1. cbn [app] in Ht1. fold job in Ht1.
  set (e1' := {| _webGLWorker := _webGLWorker e1; _queue := _queue e1;
                 _currentBuffer := _currentBuffer e1; _offset := _offset e1;
                 _state := _state e1; timers := []; resolved := resolved e1 |}).
  assert (run_timer e1 = webGLSearch job e1') as Hrun.
  { unfold run_timer. by rewrite Ht1. }
  assert (sentinel job e1' <> Some (-1)) as Hs.
  { rewrite sentinel_history. cbn [e1' _webGLWorker]. rewrite Hw1, <- app_assoc.
    exact Hread. }
  rewrite (webGLSearch_match job e1' Hs) in Hrun.
  destruct (after_match_fields job e1') as (Ms & Mq & Mt & Mo & [result Mr] & Mw).
  rewrite (searchDoNext_searching (after_match job e1')) in Hrun
    by (rewrite Ms; exact Hs1).
  exists e1, (set_state ready (set_queue (tail (_queue (after_match job e1')))
                                 (after_match job e1'))), result.
  cbn [set_state set_queue _state _queue timers resolved].
  rewrite Mq, Mt, Mr. cbn [e1' _queue timers resolved]. rewrite Hq1, Hr1.
  repeat split; try done.
  rewrite Hrun, Mq. cbn [e1' _queue]. by rewrite Hq1.
Qed.

Lemma searchDoNext_timers e :
  (timers (searchDoNext e).2 = timers e \/
   (_state e <> searching /\ _state (searchDoNext e).2 = searching /\
    exists next, timers (searchDoNext e).2 = timers e ++ [next])) /\
  (_state (searchDoNext e).2 = ready -> _state e = searching).
Proof.
  destruct (decide (_state e = searching)) as [Hs|Hs].
  - rewrite (searchDoNext_searching e Hs). cbn. auto.
  - destruct (_queue e) as [|next rest] eqn:Hq.
    + rewrite (searchDoNext_empty e Hq Hs). cbn. split; [auto|discriminate].
    + destruct (searchDoNext_dispatch e next rest Hs Hq)
        as (e' & -> & Hs' & ? & ? & ? & ? & ?).
      cbn [snd]. split; [right; eauto|]. rewrite Hs'. discriminate.
Qed.

(** One step keeps [single_flight], provided [resume] is called on a parked
    engine only. *)
Lemma single_flight_step (act : Action) (e : PearlDiver) :
  single_flight e -> (act = call_resume -> parked e) ->
  single_flight (step act e).
Proof.
  intros [Hlen Hready] Hres.
  destruct act as [sts minWeight resolve|offset| | | |]; cbn [step].
  - (* search *)
    unfold search.
    destruct ((minWeight >=? Z.of_nat Curl.HASH_LENGTH) || (minWeight <=? 0));
      [by split|].
    set (job := {| states := sts; minWeightMagnitude := minWeight;
                   callback := resolve |}).
    destruct (decide (_state (set_queue (_queue e ++ [job]) e) = ready)) as [Hr|Hr];
      [|by split].
    cbn [set_queue _state] in Hr.
    destruct (_queue e ++ [job]) as [|hd rest] eqn:Hq.
    { by destruct (_queue e). }
    destruct (searchDoNext_dispatch (set_queue (hd :: rest) e) hd rest)
      as (e' & -> & Hs' & _ & Ht' & _); [cbn; congruence|done|].
    cbn [set_queue timers] in Ht'. rewrite (Hready Hr) in Ht'.
    cbv beta iota. cbn [snd].
    split; [by rewrite Ht'|]. intros Hr'. rewrite Hs' in Hr'. discriminate.
  - (* setOffset *) by split.
  - (* interrupt *)
    unfold interrupt. destruct (decide (_state e = searching)); [|by split].
    split; [done|]. cbn. discriminate.
  - (* resume *)
    destruct (Hres eq_refl) as [Hi Ht]. unfold resume.
    destruct (searchDoNext_timers e) as [[Hsame|(_ & Hs' & next & Hnext)] Hrd].
    + split; [rewrite Hsame, Ht; cbn; lia|].
      intros Hr. rewrite (Hrd Hr) in Hi. discriminate.
    + split; [rewrite Hnext, Ht; cbn; lia|].
      intros Hr. rewrite Hs' in Hr. discriminate.
  - (* remove *) by split.
  - (* the timer *)
    unfold run_timer. destruct (timers e) as [|so rest] eqn:Ht.
    { cbn [snd]. split; rewrite Ht; [exact Hlen|done]. }
    assert (rest = []) as -> by (destruct rest; [done|cbn in Hlen; lia]).
    assert (_state e <> ready) as Hnr by (intros Hr; by specialize (Hready Hr)).
    set (e0 := {| _webGLWorker := _webGLWorker e; _queue := _queue e;
                  _currentBuffer := _currentBuffer e; _offset := _offset e;
                  _state := _state e; timers := []; resolved := resolved e |}).
    destruct (decide (sentinel so e0 = Some (-1))) as [Hs|Hs].
    + rewrite (webGLSearch_no_match so e0 Hs).
      destruct (run_round_fields so e0) as (Rs & _ & Rt & _).
      destruct (decide (_state e0 = interrupted)) as [Hi|Hi]; cbn [snd].
      * split; cbn [saveSearch set_queue timers _state]; rewrite ?Rt, ?Rs.
        -- cbn. lia.
        -- done.
      * split; cbn [setTimeout timers _state]; rewrite ?Rt, ?Rs.
        -- cbn. lia.
        -- intros Hr. by destruct Hnr.
    + rewrite (webGLSearch_match so e0 Hs).
      destruct (after_match_fields so e0) as (Ms & _ & Mt & _).
      cbn [e0 timers _state] in Ms, Mt.
      destruct (searchDoNext_timers (after_match so e0))
        as [[Hsame|(_ & Hs' & next & Hnext)] Hrd].
      * split; [rewrite Hsame, Mt; cbn; lia|].
        intros _. by rewrite Hsame, Mt.
      * split; [rewrite Hnext, Mt; cbn; lia|].
        intros Hr. rewrite Hs' in Hr. discriminate.
Qed.

(** X21. Single flight: starting from a new engine, after any sequence of
    [search], [setOffset], [interrupt], [remove] and [resume] calls and
    timer firings in which [resume] is only called on a parked engine
    ([interrupted], its round loop stopped), at most one round loop is
    pending, and none when the engine is [ready]. *)
Theorem single_flight_run (acts : list Action) (ipt_data : list Z) :
  resumes_when_parked acts (new_PearlDiver ipt_data) ->
  single_flight (run acts (new_PearlDiver ipt_data)).
Proof.
  assert (forall e, single_flight e -> resumes_when_parked acts e ->
                    single_flight (run acts e)) as Hgen.
  { induction acts as [|act acts IH]; intros e He Hacts; [exact He|].
    destruct Hacts as [Hact Hrest]. unfold run. cbn [foldl].
    apply IH; [|exact Hrest]. by apply single_flight_step. }
  apply Hgen. split; [cbn; lia|done].
Qed.

End Runs.

Lemma single_flight_run_witness :
  single_flight
    (@run (constant_worker (-1))
       [ call_search (states example_job) 14 1;
         call_search (states example_job) 15 2;
         fire_timer; call_interrupt; fire_timer; call_resume; fire_timer ]
       (new_PearlDiver [1; 2; 3; 4; 5; 6; 7; 8])).
Proof.
  apply (@single_flight_run (constant_worker (-1))).
  cbn [resumes_when_parked]. repeat split; discriminate.
Defined.

(** ** The compositions on concrete engines *)

Lemma remove_drops_last_witness :
  remove example_engine = example_engine /\
  _queue (remove (set_queue ([] ++ [example_job]) example_engine)) = [] /\
  remove (@search (constant_worker 0) (states example_job) 14 1
            (set_state searching example_engine)).2
    = set_state searching example_engine.
Proof.
  split; [|split].
  - apply (proj1 (remove_drops_last (H := constant_worker 0) example_engine)).
    reflexivity.
  - apply (proj1 (proj2 (remove_drops_last (H := constant_worker 0)
             (set_queue ([] ++ [example_job]) example_engine))) [] example_job).
    reflexivity.
  - apply (remove_drops_last (H := constant_worker 0)
             (set_state searching example_engine)).
    + unfold Curl.HASH_LENGTH. lia.
    + discriminate.
Defined.

Lemma setOffset_next_job_witness :
  exists e',
    @searchDoNext (constant_worker 0)
      (setOffset 5 (set_queue [example_job] example_engine)) = (Normal, e') /\
    new_calls (set_queue [example_job] example_engine) e'
      = [ writeData (webGLWriteBuffers (states example_job)
                       (_currentBuffer example_engine));
          runProgram "init" 1 (Some ("gr_offset", 5)) ].
Proof.
  apply (proj2 (proj2 (proj2 (proj2 (proj2
           (setOffset_next_job (H := constant_worker 0) 5
              (set_queue [example_job] example_engine))))))
         example_job []).
  - discriminate.
  - reflexivity.
Defined.

Lemma webGLSearch_match_while_searching_witness :
  let e := set_state searching (set_queue [example_job] example_engine) in
  exists e' result,
    @webGLSearch (constant_worker 0) example_job e = (Normal, e') /\
    _state e' = ready /\
    _queue e' = tail (_queue e) /\
    timers e' = timers e /\
    resolved e' = resolved e ++ [(callback example_job, result)] /\
    new_calls e e' = round_calls example_job ++ @match_calls (constant_worker 0).
Proof.
  apply (@webGLSearch_match_while_searching (constant_worker 0) example_job
           (set_state searching (set_queue [example_job] example_engine))).
  - reflexivity.
  - discriminate.
Defined.

Lemma webGLSearch_match_while_interrupted_witness :
  let e := set_state interrupted example_engine in
  exists e' result,
    @webGLSearch (constant_worker 0) example_job e = (TypeError, e') /\
    _state e' = searching /\ _queue e' = [] /\ timers e' = timers e /\
    resolved e' = resolved e ++ [(callback example_job, result)] /\
    new_calls e e' = round_calls example_job ++ @match_calls (constant_worker 0).
Proof.
  apply (proj1 (@webGLSearch_match_while_interrupted (constant_worker 0) example_job
                  (set_state interrupted example_engine)
                  ltac:(reflexivity) ltac:(discriminate))).
  reflexivity.
Defined.

Lemma resume_right_after_interrupt_witness :
  let e := set_state searching (set_queue [example_job] example_engine) in
  exists e', @resume (constant_worker 0) (interrupt e) = (Normal, e') /\
    _state e' = searching /\ _queue e' = [] /\
    timers e' = timers e ++ [example_job] /\
    new_calls e e'
      = [ writeData (webGLWriteBuffers (states example_job) (_currentBuffer e));
          runProgram "init" 1 (Some ("gr_offset", _offset e)) ].
Proof.
  apply (proj2 (@resume_right_after_interrupt (constant_worker 0)
                  (set_state searching (set_queue [example_job] example_engine))
                  ltac:(reflexivity)) example_job []).
  reflexivity.
Defined.

Lemma resume_after_saveSearch_witness :
  let e := set_state interrupted example_engine in
  let e5 := @run_round (constant_worker (-1)) example_job e in
  let so' := {| states := snapshot (_currentBuffer e5) (states example_job);
                minWeightMagnitude := minWeightMagnitude example_job;
                callback := callback example_job |} in
  exists e'',
    @resume (constant_worker (-1))
      (@webGLSearch (constant_worker (-1)) example_job e).2 = (Normal, e'') /\
    _state e'' = searching /\
    _queue e'' = _queue e /\
    timers e'' = timers e ++ [so'] /\
    resolved e'' = resolved e /\
    new_calls e e''
      = round_calls example_job ++
        [ writeData (webGLWriteBuffers (states so') (_currentBuffer e5));
          runProgram "init" 1 (Some ("gr_offset", _offset e)) ].
Proof.
  apply (@resume_after_saveSearch (constant_worker (-1)) example_job
           (set_state interrupted example_engine)).
  - reflexivity.
  - reflexivity.
Defined.

Lemma webGLSearch_nonce_witness :
  let e := set_state searching example_engine in
  let data := @readData_result (constant_worker 0)
                (_webGLWorker e ++ round_calls example_job
                 ++ @match_calls (constant_worker 0)) in
  exists nonce,
    resolved (@webGLSearch (constant_worker 0) example_job e).2
      = resolved e ++ [(callback example_job, Trits_fromValue_toTrytes nonce)] /\
    length nonce = Nat.min Curl.HASH_LENGTH ((length data + 3) / 4) /\
    (forall i, (i < Curl.HASH_LENGTH)%nat -> (4 * i + 3 < length data)%nat ->
       nonce !! i = Some (data !! (4 * i + 3)%nat)).
Proof.
  apply (@webGLSearch_nonce (constant_worker 0) example_job
           (set_state searching example_engine)).
  discriminate.
Defined.

Lemma search_then_match_witness :
  let job := {| states := states example_job; minWeightMagnitude := 14;
                callback := 1 |} in
  exists e1 e2 result,
    @search (constant_worker 0) (states example_job) 14 1 example_engine
      = (Pending, e1) /\
    timers e1 = [job] /\ _state e1 = searching /\
    @run_timer (constant_worker 0) e1 = (Normal, e2) /\
    _state e2 = ready /\ _queue e2 = [] /\ timers e2 = [] /\
    resolved e2 = resolved example_engine ++ [(1%nat, result)].
Proof.
  apply (@search_then_match (constant_worker 0) (states example_job) 14 1
           example_engine).
  - unfold Curl.HASH_LENGTH. lia.
  - reflexivity.
  - reflexivity.
  - reflexivity.
  - discriminate.
Defined.
